(** * GDBDecompile: a shallow embedding of [GDBDecompile.py]

    The extension registers one debugger command, [decompile <function>].
    Its helper object loads a configuration file once, asks the host
    debugger for the loaded binary, shells out once per session to an
    external decompiler that fills a cache directory, and then looks the
    requested function up in that cache with a glob pattern.

    The program is almost entirely effects, so the embedding is a state and
    exception monad over
      - the helper object ([GDBDecompile]: [loaded], [options], [decompiled]),
      - the world ([World]: a file-system tree, the debugger's logging
        state, the working directory and a trace of the effects performed).
    External programs ([mktemp], [ghidrecomp]), the TOML parser, the syntax
    highlighter, the decoder of the locale's encoding and the debugger's
    answer to a command are parameters.
    The Python library functions the source calls ([str.split],
    [os.path.join], [glob.glob], ...) are transcribed from their CPython
    definitions for POSIX paths. A [str] is a string of its characters,
    taken below 256; a file holds bytes, which reading in text mode
    decodes. *)

From stdpp Require Import base strings list gmap.
From Stdlib Require Import Ascii ZArith Lia.

Set Warnings "-register-all".

(** ** Python [str] operations *)

Definition chr_slash : ascii := "/"%char.
Definition chr_dot : ascii := "."%char.
Definition chr_nl : ascii := "010"%char.
Definition chr_quote : ascii := "034"%char.
Definition chr_space : ascii := " "%char.
Definition chr_esc : ascii := "027"%char.
Definition chr_cr : ascii := "013"%char.
Definition chr_nul : ascii := "000"%char.
Definition chr_tab : ascii := "009"%char.
Definition chr_apostrophe : ascii := "'"%char.
Definition chr_backslash : ascii := "\"%char.

(** [s.split(sep)] for a one-character separator: never the empty list. *)
Fixpoint py_split (sep : ascii) (s : string) : list string :=
  match s with
  | EmptyString => [""]
  | String c s' =>
      if Ascii.eqb c sep then "" :: py_split sep s'
      else match py_split sep s' with
           | [] => [String c ""]
           | h :: t => String c h :: t
           end
  end.

(** [sep.join(l)] *)
Fixpoint py_join (sep : string) (l : list string) : string :=
  match l with
  | [] => ""
  | [x] => x
  | x :: rest => x +:+ sep +:+ py_join sep rest
  end.

(** [c in s] *)
Fixpoint contains_char (c : ascii) (s : string) : bool :=
  match s with
  | EmptyString => false
  | String d s' => Ascii.eqb c d || contains_char c s'
  end.

(** [s.startswith(p)] *)
Fixpoint startswith (p s : string) : bool :=
  match p, s with
  | EmptyString, _ => true
  | String a p', String b s' => Ascii.eqb a b && startswith p' s'
  | String _ _, EmptyString => false
  end.

(** [s.endswith(c)] for one character. *)
Fixpoint endswith_char (c : ascii) (s : string) : bool :=
  match s with
  | EmptyString => false
  | String d EmptyString => Ascii.eqb c d
  | String _ s' => endswith_char c s'
  end.

(** [s.rstrip(c)] for one character. *)
Fixpoint rstrip_char (c : ascii) (s : string) : string :=
  match s with
  | EmptyString => ""
  | String d s' =>
      match rstrip_char c s' with
      | EmptyString => if Ascii.eqb c d then "" else String d ""
      | r => String d r
      end
  end.

(** White space as [str.strip()] sees it, among the characters below 256. *)
Definition is_space (c : ascii) : bool :=
  let n := nat_of_ascii c in
  ((9 <=? n) && (n <=? 13)) || ((28 <=? n) && (n <=? 32))
  || (n =? 133) || (n =? 160).

Fixpoint lstrip (s : string) : string :=
  match s with
  | EmptyString => ""
  | String c s' => if is_space c then lstrip s' else s
  end.

Fixpoint rstrip (s : string) : string :=
  match s with
  | EmptyString => ""
  | String c s' =>
      match rstrip s' with
      | EmptyString => if is_space c then "" else String c ""
      | r => String c r
      end
  end.

(** [s.strip()] *)
Definition strip (s : string) : string := rstrip (lstrip s).

(** [str(n)] for a natural number, most significant digit first. *)
Definition digit_char (d : nat) : ascii := ascii_of_nat (48 + d).

Fixpoint str_nat_aux (fuel n : nat) (acc : string) : string :=
  match fuel with
  | O => acc
  | S fuel' =>
      let acc' := String (digit_char (n mod 10)) acc in
      if n <? 10 then acc' else str_nat_aux fuel' (n / 10) acc'
  end.

Definition str_nat (n : nat) : string := str_nat_aux (S n) n "".

(** ** [posixpath] *)

(** [(p[:i], p[i:])] with [i = p.rfind('/') + 1]: the head keeps its final
    slash and is empty exactly when [p] has no slash. *)
Fixpoint rsplit_slash (p : string) : string * string :=
  match p with
  | EmptyString => ("", "")
  | String c p' =>
      match rsplit_slash p' with
      | (EmptyString, t) =>
          if Ascii.eqb c chr_slash then ("/", t) else ("", String c t)
      | (h, t) => (String c h, t)
      end
  end.

(** [all(c == '/' for c in s)] *)
Fixpoint all_slashes (s : string) : bool :=
  match s with
  | EmptyString => true
  | String c s' => Ascii.eqb c chr_slash && all_slashes s'
  end.

(** [os.path.split] *)
Definition path_split (p : string) : string * string :=
  let (head, tail) := rsplit_slash p in
  let head' :=
    match head with
    | EmptyString => head
    | _ => if all_slashes head then head else rstrip_char chr_slash head
    end in
  (head', tail).

(** [os.path.basename] *)
Definition basename (p : string) : string := snd (rsplit_slash p).

(** [os.path.join(a, b)] *)
Definition path_join2 (a b : string) : string :=
  if startswith "/" b then b
  else match a with
       | EmptyString => b
       | _ => if endswith_char chr_slash a then a +:+ b else a +:+ "/" +:+ b
       end.

(** [os.path.join(a, *rest)] *)
Definition path_join (a : string) (rest : list string) : string :=
  foldl path_join2 a rest.

(** [(p[:i], p[i:])] with [i = p.rfind('.')], or [None] without a dot. *)
Fixpoint rsplit_dot (p : string) : option (string * string) :=
  match p with
  | EmptyString => None
  | String c p' =>
      match rsplit_dot p' with
      | Some (h, t) => Some (String c h, t)
      | None => if Ascii.eqb c chr_dot then Some ("", p) else None
      end
  end.

(** [all(c == '.' for c in s)] *)
Fixpoint all_dots (s : string) : bool :=
  match s with
  | EmptyString => true
  | String c s' => Ascii.eqb c chr_dot && all_dots s'
  end.

(** [os.path.splitext]: the extension starts at the last dot of the last
    component, unless only dots precede it there. *)
Definition splitext (p : string) : string * string :=
  let (dir, name) := rsplit_slash p in
  match rsplit_dot name with
  | Some (stem, ext) =>
      if all_dots stem then (p, "") else (dir +:+ stem, ext)
  | None => (p, "")
  end.

(** ** [fnmatch]

    A pattern is read into tokens the way [fnmatch.translate] reads it:
    [*] any run of characters, [?] any one character, [[seq]] one character
    of a class ([[!seq]] its complement), anything else a literal. A [[]
    without a closing bracket is a literal. Classes read ranges [lo-hi] left
    to right. *)

Inductive ClassItem :=
| CSingle (c : ascii)
| CRange (lo hi : ascii).

Inductive Tok :=
| TStar
| TAny
| TClass (neg : bool) (items : list ClassItem)
| TLit (c : ascii).

Definition is_magic_char (c : ascii) : bool :=
  Ascii.eqb c "*"%char || Ascii.eqb c "?"%char || Ascii.eqb c "["%char.

(** [glob.has_magic] *)
Fixpoint has_magic (s : string) : bool :=
  match s with
  | EmptyString => false
  | String c s' => is_magic_char c || has_magic s'
  end.

(** Text up to the first ["]"], and what follows it. *)
Fixpoint until_rbracket (s : string) : option (string * string) :=
  match s with
  | EmptyString => None
  | String c s' =>
      if Ascii.eqb c "]"%char then Some ("", s')
      else match until_rbracket s' with
           | Some (body, rest) => Some (String c body, rest)
           | None => None
           end
  end.

(** After a ["["]: an optional ["!"], an optional ["]"] that belongs to the
    class, then everything up to the closing bracket. *)
Definition take_class (s : string) : option (bool * string * string) :=
  let '(neg, s1) :=
    match s with
    | String "!"%char s' => (true, s')
    | _ => (false, s)
    end in
  let '(lead, s2) :=
    match s1 with
    | String "]"%char s' => ("]", s')
    | _ => ("", s1)
    end in
  match until_rbracket s2 with
  | Some (body, rest) => Some (neg, lead +:+ body, rest)
  | None => None
  end.

Fixpoint class_items (s : string) : list ClassItem :=
  match s with
  | EmptyString => []
  | String lo (String "-"%char (String hi rest)) =>
      CRange lo hi :: class_items rest
  | String c rest => CSingle c :: class_items rest
  end.

Definition in_item (c : ascii) (it : ClassItem) : bool :=
  match it with
  | CSingle d => Ascii.eqb c d
  | CRange lo hi =>
      (nat_of_ascii lo <=? nat_of_ascii c) && (nat_of_ascii c <=? nat_of_ascii hi)
  end.

Definition in_class (neg : bool) (items : list ClassItem) (c : ascii) : bool :=
  xorb neg (existsb (in_item c) items).

Fixpoint parse_pattern (fuel : nat) (pat : string) : list Tok :=
  match fuel with
  | O => []
  | S fuel' =>
      match pat with
      | EmptyString => []
      | String c rest =>
          if Ascii.eqb c "*"%char then TStar :: parse_pattern fuel' rest
          else if Ascii.eqb c "?"%char then TAny :: parse_pattern fuel' rest
          else if Ascii.eqb c "["%char then
            match take_class rest with
            | Some (neg, body, rest') =>
                TClass neg (class_items body) :: parse_pattern fuel' rest'
            | None => TLit c :: parse_pattern fuel' rest
            end
          else TLit c :: parse_pattern fuel' rest
      end
  end.

(** The whole of [name] against the tokens (the translated regular
    expression is anchored at both ends and its dot matches any character). *)
Fixpoint match_toks (ts : list Tok) (name : string) : bool :=
  match ts with
  | [] => match name with EmptyString => true | _ => false end
  | TStar :: ts' =>
      (fix star (s : string) : bool :=
         match_toks ts' s ||
         match s with
         | EmptyString => false
         | String _ s' => star s'
         end) name
  | TAny :: ts' =>
      match name with
      | EmptyString => false
      | String _ s' => match_toks ts' s'
      end
  | TClass neg items :: ts' =>
      match name with
      | EmptyString => false
      | String d s' => in_class neg items d && match_toks ts' s'
      end
  | TLit c :: ts' =>
      match name with
      | EmptyString => false
      | String d s' => Ascii.eqb c d && match_toks ts' s'
      end
  end.

(** [fnmatch.fnmatch(name, pat)] on POSIX, where [normcase] is the identity. *)
Definition fnmatch (name pat : string) : bool :=
  match_toks (parse_pattern (String.length pat) pat) name.

(** [glob._ishidden] *)
Definition ishidden (p : string) : bool := startswith "." p.

(** ** Exceptions *)

Inductive Exn :=
| KeyError (key : string)
| IndexError
| AttributeError
| TypeError
| FileNotFoundError (path : string)
| NotADirectoryError (path : string)
| IsADirectoryError (path : string)
| FileExistsError (path : string)
| OSError (msg : string)
| GdbError (msg : string)
| UnicodeDecodeError (msg : string)
| ValueError (msg : string)
| TomlDecodeError.

(** Two hexadecimal digits, in lower case. *)
Definition hex_digit (d : nat) : ascii :=
  ascii_of_nat (if d <? 10 then 48 + d else 87 + d).

Definition hex2 (c : ascii) : string :=
  let n := nat_of_ascii c in
  String (hex_digit (n / 16)) (String (hex_digit (n mod 16)) "").

(** [repr(s)]: the string between apostrophes, or between double quotes
    when it holds an apostrophe and no double quote; the backslash and the
    enclosing quote are escaped, and so is what does not print. *)
Definition repr_printable (c : ascii) : bool :=
  let n := nat_of_ascii c in
  ((32 <=? n) && (n <? 127)) || ((161 <=? n) && negb (n =? 173)).

Definition repr_char (quote c : ascii) : string :=
  if Ascii.eqb c chr_backslash || Ascii.eqb c quote
  then String chr_backslash (String c "")
  else if Ascii.eqb c chr_tab then "\t"
  else if Ascii.eqb c chr_nl then "\n"
  else if Ascii.eqb c chr_cr then "\r"
  else if repr_printable c then String c ""
  else "\x" +:+ hex2 c.

Fixpoint repr_body (quote : ascii) (s : string) : string :=
  match s with
  | EmptyString => ""
  | String c s' => repr_char quote c +:+ repr_body quote s'
  end.

Definition py_repr (s : string) : string :=
  let quote :=
    if contains_char chr_apostrophe s && negb (contains_char chr_quote s)
    then chr_quote else chr_apostrophe in
  String quote (repr_body quote s +:+ String quote "").

(** [str(e)], as far as the messages are concerned. *)
Definition exn_str (e : Exn) : string :=
  match e with
  | KeyError k => py_repr k
  | IndexError => "list index out of range"
  | AttributeError => "'NoneType' object has no attribute 'split'"
  | TypeError => "expected str, bytes or os.PathLike object"
  | FileNotFoundError p => "[Errno 2] No such file or directory: " +:+ py_repr p
  | NotADirectoryError p => "[Errno 20] Not a directory: " +:+ py_repr p
  | IsADirectoryError p => "[Errno 21] Is a directory: " +:+ py_repr p
  | FileExistsError p => "[Errno 17] File exists: " +:+ py_repr p
  | OSError m => m
  | GdbError m => m
  | UnicodeDecodeError m => m
  | ValueError m => m
  | TomlDecodeError => "invalid TOML"
  end.

(** ** The file system

    A tree of directories and regular files; a file holds bytes. There are
    no symbolic links, permissions or quotas: an operation fails only for
    the shape of the tree (a missing parent, a file where a directory is
    needed, ...). A path is resolved as the kernel resolves it, component
    by component against the tree. The working directory is an entry of
    the tree: what the kernel still resolves relative to a directory that
    has been removed is not modelled. *)

Inductive Node :=
| File (content : string)
| Dir (children : gmap string Node).

Definition is_dir (n : Node) : bool :=
  match n with Dir _ => true | File _ => false end.

Fixpoint walk (n : Node) (k : list string) : option Node :=
  match k with
  | [] => Some n
  | c :: k' =>
      match n with
      | Dir m => match m !! c with
                 | Some n' => walk n' k'
                 | None => None
                 end
      | File _ => None
      end
  end.

(** Replace the node at [k], when there is one. *)
Fixpoint put (k : list string) (new : Node) (n : Node) : Node :=
  match k with
  | [] => new
  | c :: k' =>
      match n with
      | Dir m => match m !! c with
                 | Some n' => Dir (<[c := put k' new n']> m)
                 | None => n
                 end
      | File _ => n
      end
  end.

Fixpoint split_last (k : list string) : option (list string * string) :=
  match k with
  | [] => None
  | [x] => Some ([], x)
  | x :: k' =>
      match split_last k' with
      | Some (i, l) => Some (x :: i, l)
      | None => None
      end
  end.

Definition norm_step (stack : list string) (c : string) : list string :=
  if String.eqb c "" || String.eqb c "." then stack
  else if String.eqb c ".." then removelast stack
  else stack ++ [c].

(** Why a path does not resolve: an entry is missing, a file stands where
    a directory is needed, or the path holds a NUL character and never
    reaches the kernel. *)
Inductive Errno := ENOENT | ENOTDIR | NUL_BYTE.

Definition os_error (e : Errno) (p : string) : Exn :=
  match e with
  | ENOENT => FileNotFoundError p
  | ENOTDIR => NotADirectoryError p
  | NUL_BYTE => ValueError "embedded null byte"
  end.

(** Every component, also an empty one, [.] and [..], is looked up in the
    directory reached so far, which must exist and be a directory. The
    result names an entry that may be missing only when the last component
    is a name. *)
Fixpoint resolve_from (root : Node) (stack : list string)
    (comps : list string) : Errno + list string :=
  match comps with
  | [] => inr stack
  | c :: rest =>
      match walk root stack with
      | Some (Dir _) => resolve_from root (norm_step stack c) rest
      | Some (File _) => inl ENOTDIR
      | None => inl ENOENT
      end
  end.

(** The components without the empty ones at the end: [mkdir] and [rmdir]
    ignore trailing slashes. *)
Fixpoint drop_trailing_empty (comps : list string) : list string :=
  match comps with
  | [] => []
  | c :: rest =>
      match drop_trailing_empty rest with
      | [] => if String.eqb c "" then [] else [c]
      | r => c :: r
      end
  end.

Definition start_dir (cwd : list string) (p : string) : list string :=
  if startswith "/" p then [] else cwd.

(** The components of a path; the empty path names nothing. *)
Definition path_comps (p : string) : Errno + list string :=
  match p with
  | EmptyString => inl ENOENT
  | _ =>
      if contains_char chr_nul p then inl NUL_BYTE
      else inr (py_split chr_slash p)
  end.

(** The entry a path names. *)
Definition resolve (root : Node) (cwd : list string) (p : string)
    : Errno + list string :=
  match path_comps p with
  | inr comps => resolve_from root (start_dir cwd p) comps
  | inl e => inl e
  end.

(** The same for an entry that is to be created or removed as a
    directory. *)
Definition resolve_create (root : Node) (cwd : list string) (p : string)
    : Errno + list string :=
  match path_comps p with
  | inr comps =>
      resolve_from root (start_dir cwd p) (drop_trailing_empty comps)
  | inl e => inl e
  end.

(** The tree with [node] at [k], or without an entry there; the parent
    must be a directory. *)
Definition place_at (root : Node) (k : list string) (node : option Node)
    : option Node :=
  match split_last k with
  | Some (parent, name) =>
      match walk root parent with
      | Some (Dir m) =>
          Some (put parent (Dir (match node with
                                 | Some n => <[name := n]> m
                                 | None => delete name m
                                 end)) root)
      | _ => None
      end
  | None => None
  end.

Section FileSystem.
Variable root : Node.
Variable cwd : list string.

(** [os.stat] *)
Definition fs_stat (p : string) : option Node :=
  match resolve root cwd p with
  | inr k => walk root k
  | inl _ => None
  end.

(** [os.path.exists], and [os.path.lexists] as there are no links. *)
Definition fs_exists (p : string) : bool :=
  match fs_stat p with Some _ => true | None => false end.

(** [os.path.isdir] *)
Definition fs_isdir (p : string) : bool :=
  match fs_stat p with Some (Dir _) => true | _ => false end.

(** [os.scandir]: the entries of a directory, with their nodes. *)
Definition fs_scandir (p : string) : option (list (string * Node)) :=
  match fs_stat p with
  | Some (Dir m) => Some (map_to_list m)
  | _ => None
  end.

(** The bytes of a file opened for reading. *)
Definition fs_read (p : string) : Exn + string :=
  match resolve root cwd p with
  | inr k =>
      match walk root k with
      | Some (File c) => inr c
      | Some (Dir _) => inl (IsADirectoryError p)
      | None => inl (FileNotFoundError p)
      end
  | inl e => inl (os_error e p)
  end.

(** The tree with [node] at the entry [p] names. *)
Definition fs_place (p : string) (node : option Node) : option Node :=
  match resolve root cwd p with
  | inr k => place_at root k node
  | inl _ => None
  end.

(** Create or truncate a regular file and write [content]. *)
Definition fs_write (p content : string) : option Node :=
  match fs_stat p with
  | Some (Dir _) => None
  | _ => fs_place p (Some (File content))
  end.

(** [os.mkdir] *)
Definition fs_mkdir (p : string) : Exn + Node :=
  match resolve_create root cwd p with
  | inr k =>
      match walk root k with
      | Some _ => inl (FileExistsError p)
      | None =>
          match place_at root k (Some (Dir ∅)) with
          | Some root' => inr root'
          | None => inl (FileNotFoundError p)
          end
      end
  | inl e => inl (os_error e p)
  end.

(** [os.remove] *)
Definition fs_remove (p : string) : Exn + Node :=
  match resolve root cwd p with
  | inr k =>
      match walk root k with
      | Some (File _) =>
          match place_at root k None with
          | Some root' => inr root'
          | None => inl (FileNotFoundError p)
          end
      | Some (Dir _) => inl (IsADirectoryError p)
      | None => inl (FileNotFoundError p)
      end
  | inl e => inl (os_error e p)
  end.
End FileSystem.

(** [.], [..] and the empty component name no entry of their own. *)
Definition is_link (c : string) : bool :=
  String.eqb c "" || String.eqb c "." || String.eqb c "..".

(** [os.rmdir]: the last component must be a name, and the directory
    empty. A path of [.] and [..] only is refused as it stands. *)
Definition fs_rmdir (root : Node) (cwd : list string) (p : string)
    : Exn + Node :=
  let refused (c : option string) : Exn :=
    match c with
    | None =>
        OSError ("[Errno 16] Device or resource busy: " +:+ py_repr p)
    | Some c =>
        if String.eqb c "." then
          OSError ("[Errno 22] Invalid argument: " +:+ py_repr p)
        else
          OSError ("[Errno 39] Directory not empty: " +:+ py_repr p)
    end in
  match path_comps p with
  | inl e => inl (os_error e p)
  | inr all =>
      let comps := drop_trailing_empty all in
      if forallb is_link comps then inl (refused (last comps))
      else
        match resolve_from root (start_dir cwd p) comps with
        | inr k =>
            match last comps with
            | Some c =>
                if is_link c then inl (refused (Some c))
                else
                  match walk root k with
                  | Some (Dir m) =>
                      match map_to_list m with
                      | [] =>
                          match place_at root k None with
                          | Some root' => inr root'
                          | None => inl (FileNotFoundError p)
                          end
                      | _ =>
                          inl (OSError ("[Errno 39] Directory not empty: "
                                        +:+ py_repr p))
                      end
                  | Some (File _) => inl (NotADirectoryError p)
                  | None => inl (FileNotFoundError p)
                  end
            | None => inl (refused None)
            end
        | inl e => inl (os_error e p)
        end
  end.

(** [shutil.rmtree]: what is under the directory is removed first, then
    the directory itself; when that fails, what was removed stays removed,
    so an error comes with the tree it leaves. *)
Definition fs_rmtree (root : Node) (cwd : list string) (p : string)
    : Exn * Node + Node :=
  match resolve root cwd p with
  | inr k =>
      match walk root k with
      | Some (Dir _) =>
          let emptied := put k (Dir ∅) root in
          match fs_rmdir emptied cwd p with
          | inr root' => inr root'
          | inl e => inl (e, emptied)
          end
      | Some (File _) => inl (NotADirectoryError p, root)
      | None => inl (FileNotFoundError p, root)
      end
  | inl e => inl (os_error e p, root)
  end.

(** ** [glob] *)

Section Glob.
Variable root : Node.
Variable cwd : list string.

(** [glob._listdir]: entry names, directories only under [dironly];
    nothing when the directory cannot be scanned. *)
Definition glob_listdir (dirname : string) (dironly : bool) : list string :=
  match fs_scandir root cwd (match dirname with
                             | EmptyString => "."
                             | _ => dirname
                             end) with
  | Some entries =>
      List.map fst
        (List.filter (λ e, negb dironly || is_dir (snd e)) entries)
  | None => []
  end.

(** [glob._glob1]: the entries that match a pattern with wildcards. A name
    with a leading dot is kept only by a pattern with a leading dot. *)
Definition glob1 (dirname pattern : string) (dironly : bool) : list string :=
  let names := glob_listdir dirname dironly in
  let names :=
    if negb (ishidden pattern)
    then List.filter (λ x, negb (ishidden x)) names
    else names in
  List.filter (λ x, fnmatch x pattern) names.

(** [glob._join] *)
Definition glob_join (dirname basename : string) : string :=
  match dirname, basename with
  | EmptyString, _ => basename
  | _, EmptyString => dirname
  | _, _ => path_join2 dirname basename
  end.

(** [glob._glob0]: a literal last component. *)
Definition glob0 (dirname basename : string) (dironly : bool) : list string :=
  match basename with
  | EmptyString => if fs_isdir root cwd dirname then [basename] else []
  | _ =>
      if fs_exists root cwd (glob_join dirname basename)
      then [basename] else []
  end.

(** [glob._iglob] without [recursive]. The recursion is on the directory
    part, which is shorter than the path, hence the fuel. *)
Fixpoint iglob (fuel : nat) (pathname : string) (dironly : bool)
    : list string :=
  match fuel with
  | O => []
  | S fuel' =>
      let (dirname, basename) := path_split pathname in
      if negb (has_magic pathname) then
        match basename with
        | EmptyString => if fs_isdir root cwd dirname then [pathname] else []
        | _ => if fs_exists root cwd pathname then [pathname] else []
        end
      else
        match dirname with
        | EmptyString => glob1 "" basename dironly
        | _ =>
            let dirs :=
              if negb (String.eqb dirname pathname) && has_magic dirname
              then iglob fuel' dirname true
              else [dirname] in
            let glob_in_dir := if has_magic basename then glob1 else glob0 in
            d ← dirs;
            name ← glob_in_dir d basename dironly;
            [path_join2 d name]
        end
  end.

(** [glob.glob] *)
Definition glob (pathname : string) : list string :=
  iglob (S (String.length pathname)) pathname false.
End Glob.

(** [os.scandir] refuses a path with a NUL character with a [ValueError],
    which [glob] does not catch: it leaves [glob.glob] when a pattern has
    wildcards after a directory part that is written out and holds a NUL
    character. The tests for existence answer no instead. *)
Fixpoint iglob_raises (fuel : nat) (pathname : string) : bool :=
  match fuel with
  | O => false
  | S fuel' =>
      let (dirname, basename) := path_split pathname in
      if negb (has_magic pathname) then false
      else
        match dirname with
        | EmptyString => false
        | _ =>
            if negb (String.eqb dirname pathname) && has_magic dirname
            then iglob_raises fuel' dirname
            else has_magic basename && contains_char chr_nul dirname
        end
  end.

Definition glob_raises (pathname : string) : bool :=
  iglob_raises (S (String.length pathname)) pathname.

(** ** Text files

    [open(p, "r")] reads text: the bytes are decoded in the locale's
    encoding and every line ending ([\r\n] or a lone [\r]) becomes
    [\n]. *)

Fixpoint universal_newlines (s : string) : string :=
  match s with
  | EmptyString => ""
  | String c s' =>
      if Ascii.eqb c chr_cr then
        match s' with
        | String d s'' =>
            if Ascii.eqb d chr_nl then String chr_nl (universal_newlines s'')
            else String chr_nl (universal_newlines s')
        | EmptyString => String chr_nl ""
        end
      else String c (universal_newlines s')
  end.

(** ** Program state *)

(** A value of the configuration table: a string, or anything else TOML
    can hold. *)
Inductive TomlValue :=
| TStr (s : string)
| TOther.

(** The attributes of the [GDBDecompile] object. *)
Record GDBDecompile := mkGDBDecompile {
  loaded : bool;
  options : gmap string TomlValue;
  decompiled : bool
}.

(** The host debugger: its logging settings and its answer to a command
    (an error message or the text it prints). *)
Record Gdb := mkGdb {
  logging_enabled : bool;
  logging_file : string;
  logging_overwrite : bool;
  logging_redirect : bool;
  respond : string → string + string
}.

(** What the program does to the outside, in order. *)
Inductive Event :=
| EvPrint (text : string)
| EvGdbExecute (command : string)
| EvGdbOutput (text : string)
| EvDontRepeat
| EvPopen (command : string)
| EvRmtree (path : string)
| EvMkdir (path : string)
| EvRun (argv : list string) (env : gmap string string)
| EvExited (returncode : Z)
| EvGlob (pattern : string) (matches : list string)
| EvOpen (path : string)
| EvRemove (path : string).

Record World := mkWorld {
  fs : Node;
  cwd : list string;
  gdb : Gdb;
  trace : list Event
}.

Definition with_fs (w : World) (root : Node) : World :=
  mkWorld root (cwd w) (gdb w) (trace w).

Definition with_gdb (w : World) (g : Gdb) : World :=
  mkWorld (fs w) (cwd w) g (trace w).

Definition log (w : World) (e : Event) : World :=
  mkWorld (fs w) (cwd w) (gdb w) (trace w ++ [e]).

(** ** The monad: the object and the world are threaded through, an
    exception stops the computation and keeps the state reached. *)

Definition M (A : Type) : Type :=
  GDBDecompile → World → (Exn + A) * GDBDecompile * World.

#[export] Instance M_ret : MRet M := λ A a self w, (inr a, self, w).

#[export] Instance M_bind : MBind M := λ A B f m self w,
  match m self w with
  | (inr a, self', w') => f a self' w'
  | (inl e, self', w') => (inl e, self', w')
  end.

Definition raise {A} (e : Exn) : M A := λ self w, (inl e, self, w).

(** [try: body except Exception as e: handler(e)] *)
Definition try_except {A} (body : M A) (handler : Exn → M A) : M A :=
  λ self w,
    match body self w with
    | (inl e, self', w') => handler e self' w'
    | r => r
    end.

Definition emit (e : Event) : M unit := λ self w, (inr (), self, log w e).
Definition get_self : M GDBDecompile := λ self w, (inr self, self, w).
Definition get_world : M World := λ self w, (inr w, self, w).
Definition put_fs (root : Node) : M unit :=
  λ self w, (inr (), self, with_fs w root).
Definition put_gdb (g : Gdb) : M unit :=
  λ self w, (inr (), self, with_gdb w g).
Definition set_loaded (b : bool) : M unit :=
  λ self w, (inr (), mkGDBDecompile b (options self) (decompiled self), w).
Definition set_options (o : gmap string TomlValue) : M unit :=
  λ self w, (inr (), mkGDBDecompile (loaded self) o (decompiled self), w).
Definition set_decompiled (b : bool) : M unit :=
  λ self w, (inr (), mkGDBDecompile (loaded self) (options self) b, w).

(** Lift a file-system operation that changes the tree. *)
Definition fs_update (op : Node → list string → Exn + Node) : M unit :=
  w ← get_world;
  match op (fs w) (cwd w) with
  | inr root' => put_fs root'
  | inl e => raise e
  end.

(** [print] *)
Definition print (text : string) : M unit := emit (EvPrint text).

(** [d[key]] *)
Definition dict_get (d : gmap string TomlValue) (key : string) : M TomlValue :=
  match d !! key with
  | Some v => mret v
  | None => raise (KeyError key)
  end.

(** A configuration value where a path is needed. The path functions
    refuse a value that is not a string at its first use; the model raises
    when the value is read, and nothing observable lies in between. *)
Definition as_path (v : TomlValue) : M string :=
  match v with
  | TStr s => mret s
  | TOther => raise TypeError
  end.

(** [l[i]] *)
Definition list_get (l : list string) (i : nat) : M string :=
  match l !! i with
  | Some x => mret x
  | None => raise IndexError
  end.

(** ** The host debugger's [gdb.execute]

    The logging commands the program issues set the logging state; enabling
    logging opens the log file (truncating it under [overwrite]). Any other
    command is answered by [respond]: an error is raised as [gdb.error], a
    text goes to the log file while logging is enabled and to the terminal
    unless it is redirected. *)

Definition set_logging_enabled (g : Gdb) (b : bool) : Gdb :=
  mkGdb b (logging_file g) (logging_overwrite g) (logging_redirect g) (respond g).
Definition set_logging_file (g : Gdb) (f : string) : Gdb :=
  mkGdb (logging_enabled g) f (logging_overwrite g) (logging_redirect g) (respond g).
Definition set_logging_overwrite (g : Gdb) (b : bool) : Gdb :=
  mkGdb (logging_enabled g) (logging_file g) b (logging_redirect g) (respond g).
Definition set_logging_redirect (g : Gdb) (b : bool) : Gdb :=
  mkGdb (logging_enabled g) (logging_file g) (logging_overwrite g) b (respond g).

(** [s[len(p):]] when [s] starts with [p]. *)
Fixpoint strip_prefix (p s : string) : option string :=
  match p, s with
  | EmptyString, _ => Some s
  | String a p', String b s' =>
      if Ascii.eqb a b then strip_prefix p' s' else None
  | String _ _, EmptyString => None
  end.

Definition file_text (w : World) (p : string) : string :=
  match fs_read (fs w) (cwd w) p with
  | inr c => c
  | inl _ => ""
  end.

Definition gdb_open_log : M unit :=
  w ← get_world;
  let g := gdb w in
  if logging_enabled g then mret ()
  else
    let start :=
      if logging_overwrite g then "" else file_text w (logging_file g) in
    match fs_write (fs w) (cwd w) (logging_file g) start with
    | Some root' => put_fs root';; put_gdb (set_logging_enabled g true)
    | None => raise (GdbError ("Unable to open log file '" +:+ logging_file g +:+ "'"))
    end.

Definition gdb_show (text : string) : M unit :=
  w ← get_world;
  let g := gdb w in
  if logging_enabled g then
    match fs_write (fs w) (cwd w) (logging_file g)
            (file_text w (logging_file g) +:+ text) with
    | Some root' => put_fs root'
    | None => mret ()
    end;;
    (if logging_redirect g then mret () else emit (EvGdbOutput text))
  else emit (EvGdbOutput text).

Definition gdb_execute (command : string) : M unit :=
  emit (EvGdbExecute command);;
  w ← get_world;
  let g := gdb w in
  if String.eqb command "set logging enabled off" then
    put_gdb (set_logging_enabled g false)
  else if String.eqb command "set logging enabled on" then gdb_open_log
  else if String.eqb command "set logging overwrite on" then
    put_gdb (set_logging_overwrite g true)
  else if String.eqb command "set logging redirect on" then
    put_gdb (set_logging_redirect g true)
  else if String.eqb command "set height 0" then mret ()
  else
    match strip_prefix "set logging file " command with
    | Some f => put_gdb (set_logging_file g f)
    | None =>
        match respond g command with
        | inl msg => raise (GdbError msg)
        | inr text => gdb_show text
        end
    end.

(** [gdb.flush]: nothing is buffered in this model. *)
Definition gdb_flush : M unit := mret ().

(** ** The program *)

Definition PROMPT_COLOUR : nat * nat * nat := (255, 39, 38).

Definition stringColour (message : string) (hexCode : nat * nat * nat) : string :=
  let '(r, g, b) := hexCode in
  String chr_esc "[38;2;" +:+ str_nat r +:+ ";" +:+ str_nat g +:+ ";"
    +:+ str_nat b +:+ "m" +:+ message +:+ String chr_esc "[0m".

(** ** Worlds to run the program in

    A machine with the configuration file of user [u], an empty [/tmp], and
    the binary [/bin/ls]; a [mktemp] that creates [/tmp/tmp.X]; a decompiler
    that writes three functions of the target into its output directory. *)

Definition env0 : gmap string string := {[ "HOME" := "/home/u" ]}.

Definition pw0 (name : string) : option string := None.

(** The tree with [node] at [p], or the tree itself where that fails. *)
Definition planted (p : string) (node : Node) (root : Node) : Node :=
  match fs_place root [] p (Some node) with
  | Some root' => root'
  | None => root
  end.

Definition popen0 (command : string) (root : Node) : string * Node :=
  if String.eqb command "mktemp"
  then ("/tmp/tmp.X" +:+ String chr_nl "", planted "/tmp/tmp.X" (File "") root)
  else ("", root).

Definition cache0 : Node :=
  Dir {[ "main.c" := File "int main(void) {}";
         "main_helper.c" := File "void main_helper(void) {}";
         "foo.c" := File "int foo;" ]}.

(** [ghidrecomp -o out target]: fills [out/<name of target>]; exits with
    status 1, having written nothing, when [out] is missing. *)
Definition run0 (argv : list string) (env : gmap string string)
    (cwd : list string) (root : Node) : Exn + (Z * Node) :=
  match argv with
  | [_; _; out; target] =>
      match fs_place root cwd (out +:+ "/" +:+ basename target) (Some cache0) with
      | Some root' => inr (0%Z, root')
      | None => inr (1%Z, root)
      end
  | _ => inr (2%Z, root)
  end.

(** A decompiler that writes its one file with Windows line endings. *)
Definition cache_crlf : Node :=
  Dir {[ "foo.c" := File ("int foo;" +:+ String chr_cr (String chr_nl "")) ]}.

Definition run_crlf (argv : list string) (env : gmap string string)
    (cwd : list string) (root : Node) : Exn + (Z * Node) :=
  match argv with
  | [_; _; out; target] =>
      match fs_place root cwd (out +:+ "/" +:+ basename target) (Some cache_crlf) with
      | Some root' => inr (0%Z, root')
      | None => inr (1%Z, root)
      end
  | _ => inr (2%Z, root)
  end.

(** A decompiler that fails: it writes nothing and exits with status 1. *)
Definition run_failing (argv : list string) (env : gmap string string)
    (cwd : list string) (root : Node) : Exn + (Z * Node) :=
  inr (1%Z, root).

(** No [ghidrecomp] on the search path: the launch itself fails. *)
Definition run_missing (argv : list string) (env : gmap string string)
    (cwd : list string) (root : Node) : Exn + (Z * Node) :=
  inl (FileNotFoundError "ghidrecomp").

Definition toml0 (text : string) : option (gmap string TomlValue) :=
  if String.eqb text "cfg"
  then Some {[ "decomp_path" := TStr "/tmp/out"; "ghidra_path" := TStr "~/ghidra" ]}
  else if String.eqb text "cfg-far"
  then Some {[ "decomp_path" := TStr "/srv/cache/out"; "ghidra_path" := TStr "~/ghidra" ]}
  else None.

Definition hl0 (code : string) : string := code.

(** The ASCII codec: a byte above 127 does not decode. *)
Fixpoint first_non_ascii (s : string) (i : nat) : option (ascii * nat) :=
  match s with
  | EmptyString => None
  | String c s' =>
      if 127 <? nat_of_ascii c then Some (c, i) else first_non_ascii s' (S i)
  end.

Definition decode_ascii (bytes : string) : string + string :=
  match first_non_ascii bytes 0 with
  | None => inr bytes
  | Some (c, i) =>
      inl ("'ascii' codec can't decode byte 0x" +:+ hex2 c +:+ " in position "
           +:+ str_nat i +:+ ": ordinal not in range(128)")
  end.

Definition home0 (config : Node) : Node :=
  Dir {[ "u" := Dir {[ "GDBDecompile" := config ]} ]}.

Definition root0 : Node :=
  Dir {[ "tmp" := Dir ∅;
         "bin" := Dir {[ "ls" := File "ELF" ]};
         "home" := home0 (Dir {[ "config.toml" := File "cfg" ]}) ]}.

(** The same machine, configured with a cache path under a directory that
    does not exist. *)
Definition root_far : Node :=
  Dir {[ "tmp" := Dir ∅;
         "bin" := Dir {[ "ls" := File "ELF" ]};
         "home" := home0 (Dir {[ "config.toml" := File "cfg-far" ]}) ]}.

(** The same machine without a configuration file. *)
Definition root_bare : Node :=
  Dir {[ "tmp" := Dir ∅;
         "bin" := Dir {[ "ls" := File "ELF" ]};
         "home" := home0 (Dir ∅) ]}.

Definition info_target_ls : string :=
  "Symbols from " +:+ String chr_quote "/bin/ls" +:+ String chr_quote "."
  +:+ String chr_nl "Local exec file:".

(** A debugger with [/bin/ls] loaded, and one with nothing loaded. *)
Definition gdb_ls : Gdb :=
  mkGdb false "gdb.txt" false false
    (λ command,
       if String.eqb command "info target" then inr info_target_ls
       else inl "Undefined command").

Definition gdb_idle : Gdb :=
  mkGdb false "gdb.txt" false false
    (λ command,
       if String.eqb command "info target" then inr ""
       else inl "Undefined command").

Definition w0 : World := mkWorld root0 [] gdb_ls [].
Definition w_idle : World := mkWorld root0 [] gdb_idle [].
Definition w_far : World := mkWorld root_far [] gdb_ls [].
Definition w_bare : World := mkWorld root_bare [] gdb_ls [].


Definition toml_half (text : string) : option (gmap string TomlValue) :=
  Some {[ "decomp_path" := TStr "/tmp/out" ]}.

(** A configuration whose cache path is the binary itself. *)
Definition toml_file (text : string) : option (gmap string TomlValue) :=
  Some {[ "decomp_path" := TStr "/bin/ls"; "ghidra_path" := TStr "~/ghidra" ]}.

Definition gdb_unquoted : Gdb :=
  mkGdb false "gdb.txt" false false
    (λ command,
       if String.eqb command "info target"
       then inr ("No file is loaded." +:+ String chr_nl "")
       else inl "Undefined command").

Definition gdb_refusing : Gdb :=
  mkGdb false "gdb.txt" false false (λ command, inl "Remote connection closed").

Definition w_unquoted : World := mkWorld root0 [] gdb_unquoted [].
Definition w_refusing : World := mkWorld root0 [] gdb_refusing [].

Section Program.
(** [os.environ] and the password database, for [os.path.expanduser]. *)
Variable environ : gmap string string.
Variable pw_dir_uid : option string.
Variable pw_dir_name : string → option string.
(** [os.popen(command).read()]: the output of a shell command and the file
    system it leaves. *)
Variable popen_read : string → Node → string * Node.
(** [subprocess.run(argv, env=env)]: the launch fails with an exception, or
    the process runs, leaves a file system and exits with a return code. *)
Variable subprocess_run :
  list string → gmap string string → list string → Node → Exn + (Z * Node).
(** [toml.loads]: [None] for text that does not decode. *)
Variable toml_loads : string → option (gmap string TomlValue).
(** [highlight(code, CLexer(), Terminal256Formatter(style='github-dark'))] *)
Variable highlight : string → string.
(** The decoder of the locale's encoding: the text of a sequence of bytes,
    or the message of the [UnicodeDecodeError] it raises. *)
Variable decode : string → string + string.

(** [(s[:i], s[i:])] at the first slash of [s], or at its end. *)
Fixpoint cut_at_slash (s : string) : string * string :=
  match s with
  | EmptyString => ("", "")
  | String c s' =>
      if Ascii.eqb c chr_slash then ("", s)
      else let (a, b) := cut_at_slash s' in (String c a, b)
  end.

(** [os.path.expanduser] *)
Definition expanduser (path : string) : string :=
  match path with
  | String "~"%char after =>
      let (name, rest) := cut_at_slash after in
      let userhome :=
        match name with
        | EmptyString =>
            match environ !! "HOME" with
            | Some h => Some h
            | None => pw_dir_uid
            end
        | _ => pw_dir_name name
        end in
      match userhome with
      | Some h =>
          match rstrip_char chr_slash h +:+ rest with
          | EmptyString => "/"
          | r => r
          end
      | None => path
      end
  | _ => path
  end.

(** Print a string output preceded by the coloured prompt. *)
Definition display (message : string) : M unit :=
  print (stringColour "GDBDecompile: " PROMPT_COLOUR +:+ message).

(** Wrapper for [gdb.execute] with error handling. *)
Definition execute (command : string) : M bool :=
  try_except
    (gdb_execute command;; mret true)
    (λ e, display ("ERROR: " +:+ exn_str e);; mret false).

(** The text of a file's bytes. *)
Definition read_text (bytes : string) : Exn + string :=
  match decode bytes with
  | inr text => inr (universal_newlines text)
  | inl msg => inl (UnicodeDecodeError msg)
  end.

(** What [open(p, "r")] followed by [f.read()] gives. *)
Definition fs_read_text (root : Node) (cwd : list string) (p : string)
    : Exn + string :=
  match fs_read root cwd p with
  | inr bytes => read_text bytes
  | inl e => inl e
  end.

(** [open(p, "r")] followed by [f.read()]. *)
Definition open_read (p : string) : M string :=
  emit (EvOpen p);;
  w ← get_world;
  match fs_read_text (fs w) (cwd w) p with
  | inr text => mret text
  | inl e => raise e
  end.

(** [os.popen(command).read()] *)
Definition os_popen_read (command : string) : M string :=
  emit (EvPopen command);;
  w ← get_world;
  let (out, root') := popen_read command (fs w) in
  put_fs root';;
  mret out.

(** [os.remove] *)
Definition os_remove (p : string) : M unit :=
  emit (EvRemove p);;
  fs_update (λ root cwd, fs_remove root cwd p).

(** Run gdb command and capture its output. *)
Definition executeCapture (command : string) : M (option string) :=
  out ← os_popen_read "mktemp";
  let tmp := strip out in
  gdb_execute "set logging enabled off";;
  gdb_execute "set height 0";;
  gdb_execute ("set logging file " +:+ tmp);;
  gdb_execute "set logging overwrite on";;
  gdb_execute "set logging redirect on";;
  gdb_execute "set logging enabled on";;
  output ← try_except
    (gdb_execute command;;
     gdb_flush;;
     gdb_execute "set logging enabled off";;
     text ← open_read tmp;
     mret (Some text))
    (λ e,
       gdb_execute "set logging enabled off";;
       display ("ERROR: " +:+ exn_str e);;
       mret None);
  os_remove tmp;;
  mret output.

(** Get the path of the current target being analysed. *)
Definition _getTarget : M (option string) :=
  target ← executeCapture "info target";
  match target with
  | Some EmptyString => mret None
  | Some text =>
      line ← list_get (py_split chr_nl text) 0;
      path ← list_get (py_split chr_quote line) 1;
      mret (Some path)
  | None => raise AttributeError
  end.

(** [shutil.rmtree], [os.mkdir], [subprocess.run], [glob.glob] as effects. *)
Definition shutil_rmtree (p : string) : M unit :=
  emit (EvRmtree p);;
  w ← get_world;
  match fs_rmtree (fs w) (cwd w) p with
  | inr root' => put_fs root'
  | inl (e, root') => put_fs root';; raise e
  end.

Definition os_mkdir (p : string) : M unit :=
  emit (EvMkdir p);;
  fs_update (λ root cwd, fs_mkdir root cwd p).

Definition os_path_exists (p : string) : M bool :=
  w ← get_world;
  mret (fs_exists (fs w) (cwd w) p).

Definition run (argv : list string) (env : gmap string string) : M unit :=
  emit (EvRun argv env);;
  w ← get_world;
  match subprocess_run argv env (cwd w) (fs w) with
  | inr (returncode, root') => put_fs root';; emit (EvExited returncode)
  | inl e => raise e
  end.

(** [glob.glob(pattern)]: the matches, or the [ValueError] of a scanned
    directory whose name holds a NUL character. *)
Definition glob_glob (pattern : string) : M (list string) :=
  w ← get_world;
  if glob_raises pattern then raise (ValueError "embedded null byte")
  else
    let matches := glob (fs w) (cwd w) pattern in
    emit (EvGlob pattern matches);;
    mret matches.

(** [os.path.splitext(os.path.basename(filename))[0]] *)
Definition candidate_name (filename : string) : string :=
  fst (splitext (basename filename)).

(** Returns a decompilation of [function] as a string. *)
Definition decompile (function : string) : M (option string) :=
  target ← _getTarget;
  match target with
  | None =>
      display "ERROR: No target is loaded";;
      mret None
  | Some target =>
      self ← get_self;
      path ← dict_get (options self) "decomp_path" ≫= as_path;
      (if negb (decompiled self) then
         b ← os_path_exists path;
         (if b : bool then shutil_rmtree path else mret ());;
         os_mkdir path;;
         ghidra ← dict_get (options self) "ghidra_path" ≫= as_path;
         let envVar := <["GHIDRA_INSTALL_DIR" := expanduser ghidra]> environ in
         display "Decompiling...";;
         run ["ghidrecomp"; "-o"; path; target] envVar;;
         display "Done!";;
         set_decompiled true
       else mret ());;
      let outDir := path_join path [basename target; function] +:+ "*" in
      functions ← glob_glob outDir;
      match functions with
      | [] =>
          display ("ERROR: No match for function with name `"
                   +:+ function +:+ "`");;
          mret None
      | [filename] =>
          source ← open_read filename;
          mret (Some source)
      | _ =>
          display ("ERROR: Multiple similar or duplicate functions found with name `"
                   +:+ function +:+ "`");;
          display ("Specify with `decompile {"
                   +:+ py_join ", " (List.map candidate_name functions)
                   +:+ "}`");;
          mret None
      end
  end.

(** Load default project options. *)
Definition _loadConfig (name : string) : M (gmap string TomlValue) :=
  let home := expanduser "~" in
  let configPath := path_join home ["GDBDecompile"; name] in
  options ← try_except
    (text ← open_read configPath;
     match toml_loads text with
     | Some o => mret o
     | None => raise TomlDecodeError
     end)
    (λ e,
       match e with
       | TomlDecodeError =>
           display ("ERROR: Cannot decode " +:+ configPath +:+ ". Exiting.");;
           mret ∅
       | FileNotFoundError _ =>
           display ("ERROR: Cannot locate " +:+ configPath +:+ ". Exiting.");;
           mret ∅
       | _ =>
           display ("Error: " +:+ exn_str e);;
           mret ∅
       end);
  set_loaded true;;
  mret options.

(** [GDBDecompile.__init__] *)
Definition __init__ : M unit :=
  set_loaded false;;
  o ← _loadConfig "config.toml";
  set_options o;;
  set_decompiled false.

(** The object before its constructor has run. *)
Definition blank : GDBDecompile := mkGDBDecompile false ∅ false.

(** The module-level [Decompile = GDBDecompile()]. *)
Definition Decompile (w : World) : (Exn + unit) * GDBDecompile * World :=
  __init__ blank w.

(** [GDBDecompileCommand.invoke] *)
Definition invoke (arg : string) (from_tty : bool) : M unit :=
  self ← get_self;
  if negb (loaded self) then
    display "ERROR: Extension improperly loaded. Exiting."
  else
    let args := py_split chr_space arg in
    emit EvDontRepeat;;
    let usage :=
      display "ERROR: Invalid command";;
      display "Usage: `decompile <function name>`" in
    if 1 <? length args then usage
    else
      a0 ← list_get args 0;
      if String.eqb a0 "" then usage
      else
        code ← decompile a0;
        match code with
        | Some code => print (highlight code)
        | None => mret ()
        end.

(** ** Reading the trace *)

(** The events an operation appended, given the worlds before and after. *)
Definition events_since (w w' : World) : list Event :=
drop (length (trace w)) (trace w').

(** [w'] continues the trace of [w] with events that all satisfy [P]. *)
Definition extends (P : Event → Prop) (w w' : World) : Prop :=
∃ evs, trace w' = trace w ++ evs ∧ Forall P evs.

(** The events of the target query: a shell command, debugger commands and
  their output, the temporary file, messages. *)
Definition capture_event (e : Event) : Prop :=
match e with
| EvPopen _ | EvGdbExecute _ | EvGdbOutput _
| EvOpen _ | EvRemove _ | EvPrint _ => True
| _ => False
end.

(** The events that clear, create or fill the cache. *)
Definition is_cache_event (e : Event) : bool :=
match e with
| EvRmtree _ | EvMkdir _ | EvRun _ _ | EvExited _ => true
| _ => false
end.

Definition is_run (e : Event) : bool :=
match e with EvRun _ _ => true | _ => false end.

Definition is_glob (e : Event) : bool :=
match e with EvGlob _ _ => true | _ => false end.

Definition is_print (e : Event) : bool :=
match e with EvPrint _ => true | _ => false end.

(** Results of a run, by component. *)
Definition result {A} (x : (Exn + A) * GDBDecompile * World) : Exn + A := x.1.1.
Definition object {A} (x : (Exn + A) * GDBDecompile * World) : GDBDecompile := x.1.2.
Definition world {A} (x : (Exn + A) * GDBDecompile * World) : World := x.2.

(** An operation that leaves the object alone and only appends events
  satisfying [P]. *)
Definition quiet (P : Event → Prop) {A} (m : M A) : Prop :=
∀ self w, object (m self w) = self ∧ extends P w (world (m self w)).

(** [b] occurs inside [a]. *)
Definition substring (b a : string) : Prop :=
∃ pre post, a = pre +:+ b +:+ post.

(** The message [display] prints. *)
Definition shown (message : string) : Event :=
EvPrint (stringColour "GDBDecompile: " PROMPT_COLOUR +:+ message).

(** ** The two halves of [decompile]

    Names for the body of [if not self.decompiled:] and for what follows
    it, so that a run of [decompile] can be taken apart. *)

Definition first_run (self : GDBDecompile) (path target : string) : M unit :=
  b ← os_path_exists path;
  (if b : bool then shutil_rmtree path else mret ());;
  os_mkdir path;;
  ghidra ← dict_get (options self) "ghidra_path" ≫= as_path;
  let envVar := <["GHIDRA_INSTALL_DIR" := expanduser ghidra]> environ in
  display "Decompiling...";;
  run ["ghidrecomp"; "-o"; path; target] envVar;;
  display "Done!";;
  set_decompiled true.

Definition cache_pattern (path target function : string) : string :=
  path_join path [basename target; function] +:+ "*".

Definition lookup (path target function : string) : M (option string) :=
  functions ← glob_glob (cache_pattern path target function);
  match functions with
  | [] =>
      display ("ERROR: No match for function with name `"
               +:+ function +:+ "`");;
      mret None
  | [filename] =>
      source ← open_read filename;
      mret (Some source)
  | _ =>
      display ("ERROR: Multiple similar or duplicate functions found with name `"
               +:+ function +:+ "`");;
      display ("Specify with `decompile {"
               +:+ py_join ", " (List.map candidate_name functions)
               +:+ "}`");;
      mret None
  end.

(** ** Notions used by the statements *)

(** The events of a first run that fails: everything but the exit of the
    decompiler. *)
Definition setup_event (e : Event) : Prop :=
  match e with
  | EvRmtree _ | EvMkdir _ | EvRun _ _ | EvPrint _ => True
  | _ => False
  end.

(** Events before the lookup, and events of a run that never gets to
    launch the decompiler or to the lookup. *)
Definition pre_lookup_event (e : Event) : Prop :=
  match e with EvGlob _ _ => False | _ => True end.

Definition early_event (e : Event) : Prop :=
  match e with EvGlob _ _ | EvExited _ => False | _ => True end.

Definition non_cache (e : Event) : Prop := is_cache_event e = false.

(** What later decompile runs of a session start from. *)
Inductive session_reaches : GDBDecompile → GDBDecompile → Prop :=
| reach_here s : session_reaches s s
| reach_step s function w r s1 w1 s2 :
    decompile function s w = (r, s1, w1) →
    session_reaches s1 s2 →
    session_reaches s s2.

(** The directory that holds, or is to hold, the entry [p] names exists:
    false when the kernel finds an entry on the way to it missing or no
    directory. *)
Definition parent_is_dir (root : Node) (cwd : list string) (p : string) : bool :=
  match resolve_create root cwd p with
  | inr k =>
      match split_last k with
      | Some (parent, _) =>
          match walk root parent with
          | Some (Dir _) => true
          | _ => false
          end
      | None => true
      end
  | inl NUL_BYTE => true
  | inl _ => false
  end.

(** The cache path can be cleared and created: [shutil.rmtree], when the
    path exists, and then [os.mkdir] succeed on it. *)
Definition cache_creatable (root : Node) (cwd : list string) (p : string) : bool :=
  match (if fs_exists root cwd p
         then match fs_rmtree root cwd p with
              | inr root1 => Some root1
              | inl _ => None
              end
         else Some root) with
  | Some root1 =>
      match fs_mkdir root1 cwd p with
      | inr _ => true
      | inl _ => false
      end
  | None => false
  end.

(** A unique match of the pattern is a regular file whose bytes decode. *)
Definition single_is_text (root : Node) (cwd : list string) (pattern : string) : bool :=
  match glob root cwd pattern with
  | [p] => match fs_stat root cwd p with
           | Some (File bytes) =>
               match decode bytes with
               | inr _ => true
               | inl _ => false
               end
           | _ => false
           end
  | _ => true
  end.

(** A name read as a pattern without wildcards. *)
Fixpoint lit_toks (s : string) : list Tok :=
  match s with
  | EmptyString => []
  | String c s' => TLit c :: lit_toks s'
  end.

(** The names of the entries of a directory, in the order of the scan. *)
Definition listdir (root : Node) (cwd : list string) (dir : string) : list string :=
  match fs_scandir root cwd dir with
  | Some entries => List.map fst entries
  | None => []
  end.

(** A command that is none of the logging commands the capture issues. *)
Definition plain_command (command : string) : bool :=
  negb (String.eqb command "set logging enabled off") &&
  negb (String.eqb command "set logging enabled on") &&
  negb (String.eqb command "set logging overwrite on") &&
  negb (String.eqb command "set logging redirect on") &&
  negb (String.eqb command "set height 0") &&
  match strip_prefix "set logging file " command with
  | Some _ => false
  | None => true
  end.

(** [p] names a regular file in a directory. *)
Definition regular_file (root : Node) (cwd : list string) (p : string) : bool :=
  parent_is_dir root cwd p &&
  match fs_stat root cwd p with
  | Some (File _) => true
  | _ => false
  end.


(** The commands that set up the capture, in order. *)
Definition capture_setup (tmp : string) : list Event :=
  [EvPopen "mktemp";
   EvGdbExecute "set logging enabled off";
   EvGdbExecute "set height 0";
   EvGdbExecute ("set logging file " +:+ tmp);
   EvGdbExecute "set logging overwrite on";
   EvGdbExecute "set logging redirect on";
   EvGdbExecute "set logging enabled on"].

(** * Lemmas *)

Lemma decompile_eq function :
  decompile function =
  (target ← _getTarget;
   match target with
   | None => display "ERROR: No target is loaded";; mret None
   | Some target =>
       self ← get_self;
       path ← dict_get (options self) "decomp_path" ≫= as_path;
       (if negb (decompiled self) then first_run self path target
        else mret ());;
       lookup path target function
   end).
Proof. reflexivity. Qed.

(** ** Traces only grow *)

Lemma extends_refl P w : extends P w w.
Proof. exists []. split; [by rewrite app_nil_r | constructor]. Qed.

Lemma extends_trans P w1 w2 w3 :
  extends P w1 w2 → extends P w2 w3 → extends P w1 w3.
Proof.
  intros (e1 & H1 & F1) (e2 & H2 & F2). exists (e1 ++ e2). split.
  - by rewrite H2, H1, app_assoc.
  - by apply Forall_app.
Qed.

Lemma extends_log (P : Event → Prop) w e : P e → extends P w (log w e).
Proof. intros H. exists [e]. split; [done | by repeat constructor]. Qed.

Lemma extends_weaken (P Q : Event → Prop) w w' :
  (∀ e, P e → Q e) → extends P w w' → extends Q w w'.
Proof.
  intros HPQ (evs & H & F). exists evs. split; [done |].
  eapply Forall_impl; eauto.
Qed.

Lemma extends_same_trace P w w' : trace w' = trace w → extends P w w'.
Proof. intros H. exists []. split; [by rewrite app_nil_r | constructor]. Qed.

Lemma events_since_app w w' evs :
  trace w' = trace w ++ evs → events_since w w' = evs.
Proof. intros H. unfold events_since. rewrite H. apply drop_app_length. Qed.

Lemma events_since_extends P w w' :
  extends P w w' →
  trace w' = trace w ++ events_since w w' ∧ Forall P (events_since w w').
Proof.
  intros (evs & H & F). by rewrite (events_since_app _ _ _ H).
Qed.

(** ** Quiet operations compose *)

Lemma quiet_ret P {A} (a : A) : quiet P (mret a).
Proof. intros self w. split; [done | apply extends_refl]. Qed.

Lemma quiet_raise P {A} (e : Exn) : quiet P (raise (A:=A) e).
Proof. intros self w. split; [done | apply extends_refl]. Qed.

Lemma quiet_bind P {A B} (m : M A) (f : A → M B) :
  quiet P m → (∀ a, quiet P (f a)) → quiet P (m ≫= f).
Proof.
  intros Hm Hf self w. unfold mbind, M_bind.
  destruct (Hm self w) as [Ho He].
  destruct (m self w) as [[[e | a] self1] w1]; unfold object, world in *; simpl in *.
  - done.
  - destruct (Hf a self1 w1) as [Ho' He']. unfold object, world in *. split; [congruence |].
    eapply extends_trans; eauto.
Qed.

Lemma quiet_try P {A} (m : M A) (h : Exn → M A) :
  quiet P m → (∀ e, quiet P (h e)) → quiet P (try_except m h).
Proof.
  intros Hm Hh self w. unfold try_except.
  destruct (Hm self w) as [Ho He].
  destruct (m self w) as [[[e | a] self1] w1]; unfold object, world in *; simpl in *.
  - destruct (Hh e self1 w1) as [Ho' He']. unfold object, world in *. split; [congruence |].
    eapply extends_trans; eauto.
  - done.
Qed.

Lemma quiet_emit (P : Event → Prop) e : P e → quiet P (emit e).
Proof. intros H self w. split; [done | by apply extends_log]. Qed.

Lemma quiet_get_self P : quiet P get_self.
Proof. intros self w. split; [done | apply extends_refl]. Qed.

Lemma quiet_get_world P : quiet P get_world.
Proof. intros self w. split; [done | apply extends_refl]. Qed.

Lemma quiet_put_fs P root : quiet P (put_fs root).
Proof. intros self w. split; [done | by apply extends_same_trace]. Qed.

Lemma quiet_put_gdb P g : quiet P (put_gdb g).
Proof. intros self w. split; [done | by apply extends_same_trace]. Qed.

Lemma quiet_weaken (P Q : Event → Prop) {A} (m : M A) :
  (∀ e, P e → Q e) → quiet P m → quiet Q m.
Proof.
  intros HPQ Hm self w. destruct (Hm self w). split; [done |].
  eapply extends_weaken; eauto.
Qed.

Create HintDb quiet.

Hint Resolve quiet_ret quiet_raise quiet_get_self quiet_get_world
  quiet_put_fs quiet_put_gdb : quiet.

(** Take a quiet goal apart along the structure of the operation. *)
Ltac quiet_step :=
  match goal with
  | |- quiet _ (_ ≫= _) => apply quiet_bind; [| intros ?]
  | |- quiet _ (try_except _ _) => apply quiet_try; [| intros ?]
  | |- quiet _ (emit _) => apply quiet_emit; exact I
  | |- quiet _ (match ?x with _ => _ end) => destruct x
  | |- quiet _ _ => solve [eauto with quiet]
  end.

Lemma quiet_fs_update P op : quiet P (fs_update op).
Proof. unfold fs_update. repeat quiet_step. Qed.

Lemma quiet_dict_get P d key : quiet P (dict_get d key).
Proof. unfold dict_get. repeat quiet_step. Qed.

Lemma quiet_as_path P v : quiet P (as_path v).
Proof. unfold as_path. repeat quiet_step. Qed.

Lemma quiet_list_get P l i : quiet P (list_get l i).
Proof. unfold list_get. repeat quiet_step. Qed.

Hint Resolve quiet_fs_update quiet_dict_get quiet_as_path quiet_list_get : quiet.

Lemma quiet_gdb_open_log : quiet capture_event gdb_open_log.
Proof. unfold gdb_open_log. repeat quiet_step. Qed.

Lemma quiet_gdb_show text : quiet capture_event (gdb_show text).
Proof. unfold gdb_show. repeat quiet_step. Qed.

Hint Resolve quiet_gdb_open_log quiet_gdb_show : quiet.

Lemma quiet_gdb_execute command : quiet capture_event (gdb_execute command).
Proof. unfold gdb_execute. repeat quiet_step. Qed.

Lemma quiet_display message : quiet capture_event (display message).
Proof. unfold display, print. repeat quiet_step. Qed.

Lemma quiet_open_read p : quiet capture_event (open_read p).
Proof. unfold open_read. repeat quiet_step. Qed.

Lemma quiet_os_popen_read command : quiet capture_event (os_popen_read command).
Proof. unfold os_popen_read. repeat quiet_step. Qed.

Lemma quiet_os_remove p : quiet capture_event (os_remove p).
Proof. unfold os_remove. repeat quiet_step. Qed.

Hint Resolve quiet_gdb_execute quiet_display quiet_open_read
  quiet_os_popen_read quiet_os_remove : quiet.

Lemma quiet_gdb_flush : quiet capture_event gdb_flush.
Proof. unfold gdb_flush. repeat quiet_step. Qed.

Hint Resolve quiet_gdb_flush : quiet.

Lemma quiet_executeCapture command :
  quiet capture_event (executeCapture command).
Proof. unfold executeCapture. repeat quiet_step. Qed.

Hint Resolve quiet_executeCapture : quiet.

Lemma quiet_getTarget : quiet capture_event _getTarget.
Proof. unfold _getTarget. repeat quiet_step. Qed.

(** ** The file-system tree *)

Lemma walk_put k : ∀ n old new,
  walk n k = Some old → walk (put k new n) k = Some new.
Proof.
  induction k as [| c k IH]; intros n old new H; simpl in *; [done |].
  destruct n as [| m]; [done |].
  destruct (m !! c) as [n' |] eqn:Hc; [| done].
  simpl. rewrite lookup_insert_eq. eauto.
Qed.

Lemma walk_app k1 : ∀ n k2 n1,
  walk n k1 = Some n1 → walk n (k1 ++ k2) = walk n1 k2.
Proof.
  induction k1 as [| c k1 IH]; intros n k2 n1 H; simpl in *.
  - congruence.
  - destruct n as [| m]; [done |].
    destruct (m !! c) as [n' |]; [eauto | done].
Qed.

Lemma split_last_app k : ∀ parent name,
  split_last k = Some (parent, name) → k = parent ++ [name].
Proof.
  induction k as [| x k IH]; intros parent name H; simpl in *; [done |].
  destruct k as [| y k'].
  - by inversion H.
  - destruct (split_last (y :: k')) as [[i l] |]; [| done].
    inversion H; subst. simpl. f_equal. by apply IH.
Qed.

Lemma walk_snoc parent : ∀ root name n,
  walk root (parent ++ [name]) = Some n →
  ∃ m, walk root parent = Some (Dir m) ∧ m !! name = Some n.
Proof.
  induction parent as [| c parent IH]; intros root name n H; simpl in *.
  - destruct root as [| m]; [done |].
    destruct (m !! name) as [n' |] eqn:Hn; [| done].
    injection H as <-. eauto.
  - destruct root as [| m]; [done |].
    destruct (m !! c) as [n' |]; [eauto | done].
Qed.

Lemma split_last_snoc parent name :
  split_last (parent ++ [name]) = Some (parent, name).
Proof.
  induction parent as [| c parent IH]; [done |].
  simpl. rewrite IH. by destruct parent.
Qed.

Lemma put_put k : ∀ n old a b,
  walk n k = Some old → put k a (put k b n) = put k a n.
Proof.
  induction k as [| c k IH]; intros n old a b H; simpl in *; [done |].
  destruct n as [| m]; [done |].
  destruct (m !! c) as [n' |] eqn:Hc; [| done].
  simpl. rewrite lookup_insert_eq, insert_insert_eq. by erewrite IH.
Qed.

Lemma py_split_nonempty sep s : py_split sep s ≠ [].
Proof.
  destruct s as [| c s]; simpl; [done |].
  destruct (Ascii.eqb c sep); [done |].
  by destruct (py_split sep s).
Qed.

Lemma path_comps_nonempty p comps : path_comps p = inr comps → comps ≠ [].
Proof.
  unfold path_comps. destruct p as [| a p]; [done |].
  destruct (contains_char chr_nul (String a p)); [done |].
  intros [= <-]. exact (py_split_nonempty chr_slash (String a p)).
Qed.

Lemma walk_dir_root root s m : walk root s = Some (Dir m) → is_dir root = true.
Proof. destruct root; [by destruct s | done]. Qed.

(** ** Path resolution *)

Lemma resolve_from_app root l1 : ∀ stack l2,
  resolve_from root stack (l1 ++ l2) =
  match resolve_from root stack l1 with
  | inr k => resolve_from root k l2
  | inl e => inl e
  end.
Proof.
  induction l1 as [| c l1 IH]; intros stack l2; [done |].
  cbn [app resolve_from].
  destruct (walk root stack) as [[| m] |]; [done | apply IH | done].
Qed.

Lemma resolve_from_empty root k m n :
  walk root k = Some (Dir m) →
  resolve_from root k (replicate n "") = inr k.
Proof.
  intros H. induction n as [| n IH]; [done |].
  cbn [replicate resolve_from]. rewrite H. exact IH.
Qed.

Lemma drop_trailing_empty_split comps :
  ∃ n, comps = drop_trailing_empty comps ++ replicate n "".
Proof.
  induction comps as [| c comps [n IH]]; [by exists 0 |].
  cbn [drop_trailing_empty].
  destruct (drop_trailing_empty comps) as [| d r].
  - destruct (String.eqb_spec c "") as [-> | Hc].
    + exists (S n). by rewrite IH.
    + exists n. by rewrite IH.
  - exists n. by rewrite IH.
Qed.

(** Resolution looks only at which entries are directories. *)
Lemma resolve_from_mono root root' :
  (∀ s m, walk root s = Some (Dir m) → ∃ m', walk root' s = Some (Dir m')) →
  ∀ comps stack k,
    resolve_from root stack comps = inr k →
    resolve_from root' stack comps = inr k.
Proof.
  intros Hk. induction comps as [| c comps IH]; intros stack k; [done |].
  cbn [resolve_from].
  destruct (walk root stack) as [[| m] |] eqn:Hw; [done | | done].
  destruct (Hk _ _ Hw) as [m' ->]. apply IH.
Qed.

(** A change of one entry that is no directory keeps the directories. *)
Lemma put_keeps_dirs parent m' name : ∀ root m,
  walk root parent = Some (Dir m) →
  (∀ m0, m !! name ≠ Some (Dir m0)) →
  (∀ c, c ≠ name → m' !! c = m !! c) →
  ∀ s m1, walk root s = Some (Dir m1) →
  ∃ m2, walk (put parent (Dir m') root) s = Some (Dir m2).
Proof.
  induction parent as [| c0 parent IH]; intros root m Hp Hn Ho s m1 Hs.
  - cbn in Hp. injection Hp as ->. cbn [put].
    destruct s as [| c s]; [by eexists |].
    cbn [walk] in *. destruct (m !! c) as [n1 |] eqn:Hc; [| done].
    destruct (decide (c = name)) as [-> | Hne].
    + destruct n1 as [| m0]; [by destruct s | by destruct (Hn m0)].
    + rewrite (Ho _ Hne), Hc. eauto.
  - cbn [walk] in Hp. destruct root as [| mr]; [done |].
    destruct (mr !! c0) as [n0 |] eqn:Hc0; [| done].
    cbn [put]. rewrite Hc0.
    destruct s as [| c s]; [by eexists |].
    cbn [walk] in *.
    destruct (decide (c = c0)) as [-> | Hne].
    + rewrite lookup_insert_eq. rewrite Hc0 in Hs. by eapply IH.
    + rewrite lookup_insert_ne by done.
      destruct (mr !! c) as [n1 |]; [eauto | done].
Qed.

Lemma resolve_kept root cwd p k parent name m m' :
  resolve root cwd p = inr k →
  walk root parent = Some (Dir m) →
  (∀ m0, m !! name ≠ Some (Dir m0)) →
  (∀ c, c ≠ name → m' !! c = m !! c) →
  resolve (put parent (Dir m') root) cwd p = inr k.
Proof.
  unfold resolve. destruct (path_comps p) as [e | comps]; [done |].
  intros H Hp Hn Ho. eapply resolve_from_mono; [| exact H].
  by eapply put_keeps_dirs.
Qed.

(** A directory just created resolves, also with the slashes that
    [mkdir] ignored. *)
Lemma resolve_created root cwd p parent name m n :
  resolve_create root cwd p = inr (parent ++ [name]) →
  walk root parent = Some (Dir m) →
  m !! name = None →
  let root' := put parent (Dir (<[name := Dir n]> m)) root in
  resolve root' cwd p = inr (parent ++ [name]) ∧
  walk root' (parent ++ [name]) = Some (Dir n).
Proof.
  unfold resolve, resolve_create.
  destruct (path_comps p) as [e0 | comps]; [done |].
  intros H Hp Hn. set (root' := put parent (Dir (<[name := Dir n]> m)) root).
  assert (Hw : walk root' (parent ++ [name]) = Some (Dir n)).
  { subst root'. erewrite walk_app; [| by eapply walk_put].
    cbn. by rewrite lookup_insert_eq. }
  split; [| exact Hw].
  destruct (drop_trailing_empty_split comps) as [e He].
  rewrite He, resolve_from_app.
  erewrite resolve_from_mono; [| | exact H].
  - by eapply resolve_from_empty.
  - intros s m1 Hs. eapply put_keeps_dirs; [exact Hp | | | exact Hs].
    + intros m0. by rewrite Hn.
    + intros c Hc. by rewrite lookup_insert_ne.
Qed.

Lemma resolve_from_empty_inv root n : ∀ k k',
  resolve_from root k (replicate n "") = inr k' → k' = k.
Proof.
  induction n as [| n IH]; intros k k'; cbn [replicate resolve_from].
  - by intros [= ->].
  - destruct (walk root k) as [[| m] |]; [done | apply IH | done].
Qed.

(** What resolves also resolves without its trailing slashes. *)
Lemma resolve_create_of root cwd p k :
  resolve root cwd p = inr k → resolve_create root cwd p = inr k.
Proof.
  unfold resolve, resolve_create.
  destruct (path_comps p) as [e0 | comps]; [done |].
  destruct (drop_trailing_empty_split comps) as [n He].
  rewrite He at 1. rewrite resolve_from_app.
  destruct (resolve_from root (start_dir cwd p) (drop_trailing_empty comps))
    as [e | k1]; [done |].
  intros H. by apply resolve_from_empty_inv in H as ->.
Qed.

Lemma parent_is_dir_snoc root cwd p parent name m :
  resolve root cwd p = inr (parent ++ [name]) →
  walk root parent = Some (Dir m) →
  parent_is_dir root cwd p = true.
Proof.
  intros Hr Hp. unfold parent_is_dir.
  by rewrite (resolve_create_of _ _ _ _ Hr), split_last_snoc, Hp.
Qed.

Lemma fs_mkdir_scandir root cwd p root' :
  fs_mkdir root cwd p = inr root' → fs_scandir root' cwd p = Some [].
Proof.
  unfold fs_mkdir, place_at.
  destruct (resolve_create root cwd p) as [e | k] eqn:Hr; [done |].
  destruct (walk root k) eqn:Hk; [done |].
  destruct (split_last k) as [[parent name] |] eqn:Hs; [| done].
  apply split_last_app in Hs. subst k.
  destruct (walk root parent) as [[| m] |] eqn:Hp; try done.
  intros H. injection H as <-.
  assert (Hn : m !! name = None).
  { erewrite walk_app in Hk; [| exact Hp]. cbn in Hk.
    by destruct (m !! name). }
  destruct (resolve_created _ _ _ _ _ _ ∅ Hr Hp Hn) as [Hr' Hw].
  unfold fs_scandir, fs_stat. rewrite Hr', Hw. by rewrite map_to_list_empty.
Qed.

(** ** A regular file, written and removed *)

Lemma regular_file_parts root cwd p :
  regular_file root cwd p = true →
  ∃ parent name m c0,
    resolve root cwd p = inr (parent ++ [name]) ∧
    walk root parent = Some (Dir m) ∧
    m !! name = Some (File c0).
Proof.
  unfold regular_file, fs_stat. intros H. apply andb_prop in H as [_ H].
  destruct (resolve root cwd p) as [e | k] eqn:Hr; [done |].
  destruct (walk root k) as [[c0 | m'] |] eqn:Hw; try done.
  destruct k as [| name parent _] using rev_ind.
  - exfalso. cbn in Hw. injection Hw as ->.
    unfold resolve in Hr.
    destruct (path_comps p) as [e | comps] eqn:Hc; [done |].
    apply path_comps_nonempty in Hc.
    destruct comps as [| c comps]; [done |].
    cbn [resolve_from] in Hr.
    destruct (walk (File c0) (start_dir cwd p)) as [[| m] |] eqn:Hs;
      try done.
    by apply walk_dir_root in Hs.
  - apply walk_snoc in Hw as (m & Hp & Hn). by exists parent, name, m, c0.
Qed.

Lemma fs_write_regular root cwd p content :
  regular_file root cwd p = true →
  ∃ root',
    fs_write root cwd p content = Some root' ∧
    regular_file root' cwd p = true ∧
    fs_read root' cwd p = inr content ∧
    fs_place root' cwd p None = fs_place root cwd p None.
Proof.
  intros H.
  destruct (regular_file_parts _ _ _ H) as (parent & name & m & c0 & Hr & Hp & Hn).
  assert (Hw : walk root (parent ++ [name]) = Some (File c0)).
  { erewrite walk_app; [| exact Hp]. simpl. by rewrite Hn. }
  set (root' := put parent (Dir (<[name := File content]> m)) root).
  assert (Hp' : walk root' parent = Some (Dir (<[name := File content]> m)))
    by (by eapply walk_put).
  assert (Hw' : walk root' (parent ++ [name]) = Some (File content)).
  { erewrite walk_app; [| exact Hp']. simpl. by rewrite lookup_insert_eq. }
  assert (Hr' : resolve root' cwd p = inr (parent ++ [name])).
  { eapply resolve_kept; [exact Hr | exact Hp | |].
    - intros m0. by rewrite Hn.
    - intros c Hc. by rewrite lookup_insert_ne. }
  assert (Hpar : parent_is_dir root' cwd p = true)
    by (by eapply parent_is_dir_snoc).
  exists root'.
  unfold fs_write, regular_file, fs_read, fs_place, fs_stat, place_at.
  rewrite Hr, Hr', split_last_snoc, Hw, Hp, Hp', Hw', Hpar.
  repeat split. subst root'.
  by rewrite delete_insert_eq, (put_put _ _ _ _ _ Hp).
Qed.

Lemma fs_remove_regular root cwd p :
  regular_file root cwd p = true →
  ∃ root',
    fs_remove root cwd p = inr root' ∧
    fs_place root cwd p None = Some root' ∧
    fs_exists root' cwd p = false.
Proof.
  intros H.
  destruct (regular_file_parts _ _ _ H) as (parent & name & m & c0 & Hr & Hp & Hn).
  assert (Hw : walk root (parent ++ [name]) = Some (File c0)).
  { erewrite walk_app; [| exact Hp]. simpl. by rewrite Hn. }
  set (root' := put parent (Dir (delete name m)) root).
  assert (Hp' : walk root' parent = Some (Dir (delete name m)))
    by (by eapply walk_put).
  assert (Hr' : resolve root' cwd p = inr (parent ++ [name])).
  { eapply resolve_kept; [exact Hr | exact Hp | |].
    - intros m0. by rewrite Hn.
    - intros c Hc. by rewrite lookup_delete_ne. }
  exists root'.
  unfold fs_remove, fs_exists, fs_place, fs_stat, place_at.
  rewrite Hr, Hr', split_last_snoc, Hw, Hp.
  repeat split.
  erewrite walk_app; [| exact Hp']. simpl. by rewrite lookup_delete_eq.
Qed.

(** ** [lookup] and [first_run], step by step *)

Lemma lookup_run path target function self w :
  lookup path target function self w =
  let pat := cache_pattern path target function in
  let ms := glob (fs w) (cwd w) pat in
  let w1 := log w (EvGlob pat ms) in
  if glob_raises pat then (inl (ValueError "embedded null byte"), self, w)
  else
  match ms with
  | [] =>
      (inr None, self,
       log w1 (shown ("ERROR: No match for function with name `"
                      +:+ function +:+ "`")))
  | [filename] =>
      (match fs_read_text (fs w) (cwd w) filename with
       | inr c => inr (Some c)
       | inl e => inl e
       end, self, log w1 (EvOpen filename))
  | _ =>
      (inr None, self,
       log (log w1 (shown ("ERROR: Multiple similar or duplicate functions found with name `"
                           +:+ function +:+ "`")))
         (shown ("Specify with `decompile {"
                 +:+ py_join ", " (List.map candidate_name ms) +:+ "}`")))
  end.
Proof.
  unfold lookup, glob_glob, open_read, display, print, shown, emit, get_world,
    raise, mbind, M_bind, mret, M_ret. simpl.
  destruct (glob_raises (cache_pattern path target function)); [reflexivity |].
  destruct (glob (fs w) (cwd w) (cache_pattern path target function))
    as [| f1 [| f2 rest]]; simpl; try reflexivity.
  destruct (fs_read_text (fs w) (cwd w) f1); reflexivity.
Qed.

Lemma first_run_inv self0 path target self w r self' w' :
  first_run self0 path target self w = (r, self', w') →
  loaded self' = loaded self ∧ options self' = options self ∧
  ∃ evs, trace w' = trace w ++ evs ∧
    match r with
    | inr _ =>
        decompiled self' = true ∧ cwd w' = cwd w ∧ gdb w' = gdb w ∧
        ∃ ghidra rc root1,
          options self0 !! "ghidra_path" = Some (TStr ghidra) ∧
          let argv := ["ghidrecomp"; "-o"; path; target] in
          let env := <["GHIDRA_INSTALL_DIR" := expanduser ghidra]> environ in
          evs = (if fs_exists (fs w) (cwd w) path then [EvRmtree path] else [])
                ++ [EvMkdir path; shown "Decompiling..."; EvRun argv env;
                    EvExited rc; shown "Done!"] ∧
          fs_scandir root1 (cwd w) path = Some [] ∧
          subprocess_run argv env (cwd w) root1 = inr (rc, fs w')
    | inl _ => self' = self ∧ Forall setup_event evs
    end.
Proof.
  unfold first_run, os_path_exists, shutil_rmtree, os_mkdir, fs_update, run,
    display, print, shown, dict_get, as_path, emit, get_world, put_fs,
    set_decompiled, raise, mbind, M_bind, mret, M_ret. simpl.
  intros H.
  destruct (fs_exists (fs w) (cwd w) path) eqn:Hex; simpl in H.
  - destruct (fs_rmtree (fs w) (cwd w) path) as [[e rootL] | root1] eqn:Hrm;
      simpl in H.
    { inversion H; subst. repeat split; try done.
      exists [EvRmtree path]. repeat split; try done. by repeat constructor. }
    destruct (fs_mkdir root1 (cwd w) path) as [e | root2] eqn:Hmk; simpl in H.
    { inversion H; subst. repeat split; try done.
      exists [EvRmtree path; EvMkdir path]. simpl. rewrite <- app_assoc.
      repeat split; try done. by repeat constructor. }
    destruct (options self0 !! "ghidra_path") as [[ghidra |] |] eqn:Hg; simpl in H.
    2, 3: inversion H; subst; repeat split; try done;
      exists [EvRmtree path; EvMkdir path]; simpl; rewrite <- app_assoc;
      repeat split; try done; by repeat constructor.
    match type of H with
    | context [subprocess_run ?a ?b ?c ?d] =>
        destruct (subprocess_run a b c d) as [e | [rc root3]] eqn:Hrun
    end; simpl in H.
    { inversion H; subst. repeat split; try done.
      eexists. simpl. rewrite <- !app_assoc. simpl.
      repeat split; try done. by repeat constructor. }
    inversion H; subst. simpl. repeat split; try done.
    eexists. rewrite <- !app_assoc. simpl. split; [reflexivity |].
    repeat split; try done.
    exists ghidra, rc, root2. repeat split; try done.
    by eapply fs_mkdir_scandir.
  - destruct (fs_mkdir (fs w) (cwd w) path) as [e | root2] eqn:Hmk; simpl in H.
    { inversion H; subst. repeat split; try done.
      exists [EvMkdir path]. repeat split; try done. by repeat constructor. }
    destruct (options self0 !! "ghidra_path") as [[ghidra |] |] eqn:Hg; simpl in H.
    2, 3: inversion H; subst; repeat split; try done;
      exists [EvMkdir path]; simpl;
      repeat split; try done; by repeat constructor.
    match type of H with
    | context [subprocess_run ?a ?b ?c ?d] =>
        destruct (subprocess_run a b c d) as [e | [rc root3]] eqn:Hrun
    end; simpl in H.
    { inversion H; subst. repeat split; try done.
      eexists. simpl. rewrite <- !app_assoc. simpl.
      repeat split; try done. by repeat constructor. }
    inversion H; subst. simpl. repeat split; try done.
    eexists. rewrite <- !app_assoc. simpl. split; [reflexivity |].
    repeat split; try done.
    exists ghidra, rc, root2. repeat split; try done.
    by eapply fs_mkdir_scandir.
Qed.

(** ** A run of [decompile], taken apart *)

Lemma getTarget_run self w :
  ∃ r0 w1, _getTarget self w = (r0, self, w1) ∧ extends capture_event w w1.
Proof.
  destruct (quiet_getTarget self w) as [Ho He].
  destruct (_getTarget self w) as [[r0 s1] w1].
  unfold object, world in *; simpl in *. subst. eauto.
Qed.

Lemma decompile_inv function self w r self' w' :
  decompile function self w = (r, self', w') →
  ∃ r0 w1, _getTarget self w = (r0, self, w1) ∧ extends capture_event w w1 ∧
    match r0 with
    | inl e => r = inl e ∧ self' = self ∧ w' = w1
    | inr None =>
        r = inr None ∧ self' = self ∧
        w' = log w1 (shown "ERROR: No target is loaded")
    | inr (Some target) =>
        match options self !! "decomp_path" with
        | None => r = inl (KeyError "decomp_path") ∧ self' = self ∧ w' = w1
        | Some TOther => r = inl TypeError ∧ self' = self ∧ w' = w1
        | Some (TStr path) =>
            if decompiled self
            then lookup path target function self w1 = (r, self', w')
            else ∃ r1 s2 w2,
              first_run self path target self w1 = (r1, s2, w2) ∧
              match r1 with
              | inl e => r = inl e ∧ self' = s2 ∧ w' = w2
              | inr _ => lookup path target function s2 w2 = (r, self', w')
              end
        end
    end.
Proof.
  rewrite decompile_eq. intros H.
  destruct (getTarget_run self w) as (r0 & w1 & HT & He).
  exists r0, w1. split; [done |]. split; [done |].
  unfold mbind, M_bind in H. rewrite HT in H.
  destruct r0 as [e | [target |]].
  - by simplify_eq.
  - unfold get_self, dict_get, as_path, raise, mret, M_ret in H. simpl in H.
    destruct (options self !! "decomp_path") as [[path |] |]; simpl in H.
    2, 3: by simplify_eq.
    destruct (decompiled self); simpl in H.
    + done.
    + destruct (first_run self path target self w1) as [[r1 s2] w2].
      exists r1, s2, w2. split; [done |].
      destruct r1; [by simplify_eq | done].
  - unfold display, print, shown, emit, mret, M_ret in *. simpl in H.
    injection H as <- <- <-. repeat split; reflexivity.
Qed.

Lemma capture_early e : capture_event e → early_event e.
Proof. by destruct e. Qed.

Lemma setup_early e : setup_event e → early_event e.
Proof. by destruct e. Qed.

Lemma early_pre_lookup e : early_event e → pre_lookup_event e.
Proof. by destruct e. Qed.

Lemma lookup_inv path target function self w r self' w' :
  lookup path target function self w = (r, self', w') →
  let pat := cache_pattern path target function in
  let ms := glob (fs w) (cwd w) pat in
  self' = self ∧ fs w' = fs w ∧ cwd w' = cwd w ∧ gdb w' = gdb w ∧
  if glob_raises pat
  then r = inl (ValueError "embedded null byte") ∧ w' = w
  else
  ∃ post, trace w' = trace w ++ EvGlob pat ms :: post ∧
    match ms with
    | [] =>
        r = inr None ∧
        post = [shown ("ERROR: No match for function with name `"
                       +:+ function +:+ "`")]
    | [filename] =>
        r = match fs_read_text (fs w) (cwd w) filename with
            | inr c => inr (Some c)
            | inl e => inl e
            end ∧
        post = [EvOpen filename]
    | _ =>
        r = inr None ∧
        post = [shown ("ERROR: Multiple similar or duplicate functions found with name `"
                       +:+ function +:+ "`");
                shown ("Specify with `decompile {"
                       +:+ py_join ", " (List.map candidate_name ms) +:+ "}`")]
    end.
Proof.
  rewrite lookup_run. simpl.
  destruct (glob_raises (cache_pattern path target function)).
  { intros H; injection H as <- <- <-. by repeat split. }
  destruct (glob (fs w) (cwd w) (cache_pattern path target function))
    as [| f1 [| f2 rest]]; intros H; injection H as <- <- <-; simpl;
    repeat split; eexists; (split; [by rewrite <- ?app_assoc | done]).
Qed.

Lemma decompile_stages function self w r self' w' :
  decompile function self w = (r, self', w') →
  (self' = self ∧ extends early_event w w' ∧
   (∀ x, r = inr x → x = None ∧ result (_getTarget self w) = inr None ∧
      ∃ w1, world (_getTarget self w) = w1 ∧
            w' = log w1 (shown "ERROR: No target is loaded"))) ∨
  (∃ target path w1 s2 w2,
     _getTarget self w = (inr (Some target), self, w1) ∧
     extends capture_event w w1 ∧
     options self !! "decomp_path" = Some (TStr path) ∧
     (if decompiled self then s2 = self ∧ w2 = w1
      else first_run self path target self w1 = (inr (), s2, w2)) ∧
     extends pre_lookup_event w1 w2 ∧
     lookup path target function s2 w2 = (r, self', w')).
Proof.
  intros H. apply decompile_inv in H as (r0 & w1 & HT & He & H).
  assert (Hearly : extends early_event w w1)
    by (eapply extends_weaken; [apply capture_early | done]).
  destruct r0 as [e | [target |]].
  - left. destruct H as (-> & -> & ->). repeat split; try done.
  - destruct (options self !! "decomp_path") as [[path |] |] eqn:Hp.
    2, 3: left; destruct H as (-> & -> & ->); repeat split; done.
    destruct (decompiled self) eqn:Hd.
    + right. exists target, path, w1, self, w1.
      repeat split; try done. apply extends_refl.
    + destruct H as (r1 & s2 & w2 & Hf & H).
      pose proof (first_run_inv _ _ _ _ _ _ _ _ Hf) as (Hl & Ho & evs & Ht & Hr).
      destruct r1 as [e | []].
      * left. destruct H as (-> & -> & ->). destruct Hr as [-> Hall].
        repeat split; try done.
        eapply extends_trans; [exact Hearly |].
        exists evs. split; [done |].
        eapply Forall_impl; [exact Hall | apply setup_early].
      * right. exists target, path, w1, s2, w2.
        repeat split; try done.
        destruct Hr as (_ & _ & _ & g & rc & root1 & _ & -> & _).
        exists ((if fs_exists (fs w1) (cwd w1) path then [EvRmtree path] else [])
                ++ [EvMkdir path; shown "Decompiling...";
                    EvRun ["ghidrecomp"; "-o"; path; target]
                      (<["GHIDRA_INSTALL_DIR" := expanduser g]> environ);
                    EvExited rc; shown "Done!"]).
        split; [done |].
        destruct (fs_exists (fs w1) (cwd w1) path); by repeat constructor.
  - left. destruct H as (-> & -> & ->). repeat split; try done.
    + eapply extends_trans; [exact Hearly |]. by apply extends_log.
    + by injection H as <-.
    + by rewrite HT.
    + exists w1. by rewrite HT.
Qed.

(** The glob event of a run is the one of its lookup: it carries the cache
    pattern and the matches in the final file system, nothing precedes it
    but the set-up, and what follows is decided by the number of matches. *)
Lemma decompile_glob_event function self w r self' w' pattern ms :
  decompile function self w = (r, self', w') →
  EvGlob pattern ms ∈ events_since w w' →
  ∃ target path pre post,
    result (_getTarget self w) = inr (Some target) ∧
    options self !! "decomp_path" = Some (TStr path) ∧
    pattern = cache_pattern path target function ∧
    ms = glob (fs w') (cwd w') pattern ∧
    events_since w w' = pre ++ EvGlob pattern ms :: post ∧
    Forall pre_lookup_event pre ∧
    match ms with
    | [] =>
        r = inr None ∧
        post = [shown ("ERROR: No match for function with name `"
                       +:+ function +:+ "`")]
    | [filename] =>
        r = match fs_read_text (fs w') (cwd w') filename with
            | inr c => inr (Some c)
            | inl e => inl e
            end ∧
        post = [EvOpen filename]
    | _ =>
        r = inr None ∧
        post = [shown ("ERROR: Multiple similar or duplicate functions found with name `"
                       +:+ function +:+ "`");
                shown ("Specify with `decompile {"
                       +:+ py_join ", " (List.map candidate_name ms) +:+ "}`")]
    end.
Proof.
  intros H Hin.
  apply decompile_stages in H as [(_ & He & _) | H].
  { apply events_since_extends in He as [_ Hall].
    rewrite Forall_forall in Hall. by apply Hall in Hin. }
  destruct H as (target & path & w1 & s2 & w2 & HT & He1 & Hp & _ & He2 & Hl).
  assert (He : extends pre_lookup_event w w2).
  { eapply extends_trans; [| exact He2].
    eapply extends_weaken; [| exact He1].
    intros e He. by apply early_pre_lookup, capture_early. }
  apply lookup_inv in Hl as (_ & Hfs & Hcwd & _ & Hl).
  destruct (glob_raises (cache_pattern path target function)).
  { destruct Hl as [_ ->].
    apply events_since_extends in He as [_ Hall].
    rewrite Forall_forall in Hall. by apply Hall in Hin. }
  destruct Hl as (post & Ht & Hm).
  destruct He as (pre & Hpre & Hall).
  assert (Hev : events_since w w' =
                pre ++ EvGlob (cache_pattern path target function)
                         (glob (fs w2) (cwd w2)
                            (cache_pattern path target function)) :: post).
  { apply events_since_app. by rewrite Ht, Hpre, <- app_assoc. }
  rewrite Hev in Hin.
  assert (Hpost : Forall pre_lookup_event post).
  { destruct (glob (fs w2) (cwd w2) (cache_pattern path target function))
      as [| f1 [| f2 rest]]; destruct Hm as [_ ->]; by repeat constructor. }
  apply elem_of_app in Hin as [Hin | Hin].
  { rewrite Forall_forall in Hall. by apply Hall in Hin. }
  apply elem_of_cons in Hin as [Heq | Hin].
  2: { rewrite Forall_forall in Hpost. by apply Hpost in Hin. }
  injection Heq as -> ->.
  exists target, path, pre, post. rewrite Hfs, Hcwd.
  repeat split; try done. by rewrite HT.
Qed.

(** ** Claims about the lookup *)

Lemma universal_newlines_id s :
  contains_char chr_cr s = false → universal_newlines s = s.
Proof.
  induction s as [| c s IH]; [done |]. cbn [contains_char universal_newlines].
  intros H. apply orb_false_elim in H as [Hc Hs].
  rewrite Ascii.eqb_sym, Hc. by rewrite (IH Hs).
Qed.

Lemma fs_read_file root cwd p bytes :
  fs_stat root cwd p = Some (File bytes) → fs_read root cwd p = inr bytes.
Proof.
  unfold fs_stat, fs_read. destruct (resolve root cwd p); [done |].
  by intros ->.
Qed.

(** C1, amended. When the glob of a decompile run yields exactly one path
    and that path is a regular file, the run reads the file as text: it
    returns the decoded bytes with every line ending turned into a line
    feed, or raises [UnicodeDecodeError] when the bytes do not decode.
    Bytes that decode to themselves and hold no carriage return come back
    unchanged. The glob is the one over the cache subdirectory of the
    loaded target. *)
Theorem decompile_single_match function self w r self' w'
    pattern filename content :
  decompile function self w = (r, self', w') →
  EvGlob pattern [filename] ∈ events_since w w' →
  fs_stat (fs w') (cwd w') filename = Some (File content) →
  r = match decode content with
      | inr text => inr (Some (universal_newlines text))
      | inl msg => inl (UnicodeDecodeError msg)
      end ∧
  (decode content = inr content →
   contains_char chr_cr content = false →
   r = inr (Some content)) ∧
  ∃ target path,
    result (_getTarget self w) = inr (Some target) ∧
    options self !! "decomp_path" = Some (TStr path) ∧
    pattern = cache_pattern path target function.
Proof.
  intros H Hin Hfile.
  destruct (decompile_glob_event _ _ _ _ _ _ _ _ H Hin)
    as (target & path & pre & post & HT & Hp & Hpat & _ & _ & _ & Hr & _).
  assert (Hread : r = match decode content with
                      | inr text => inr (Some (universal_newlines text))
                      | inl msg => inl (UnicodeDecodeError msg)
                      end).
  { rewrite Hr. unfold fs_read_text, read_text.
    rewrite (fs_read_file _ _ _ _ Hfile). by destruct (decode content). }
  split; [exact Hread |]. split; [| by exists target, path].
  intros Hd Hcr. by rewrite Hread, Hd, (universal_newlines_id _ Hcr).
Qed.

(** C5. When the glob of a decompile run matches nothing, the run prints
    the "no match" error for the requested name as its last message and
    returns [None]. *)
Theorem decompile_no_match function self w r self' w' pattern :
  decompile function self w = (r, self', w') →
  EvGlob pattern [] ∈ events_since w w' →
  r = inr None ∧
  ∃ pre, events_since w w' =
         pre ++ [EvGlob pattern [];
                 shown ("ERROR: No match for function with name `"
                        +:+ function +:+ "`")].
Proof.
  intros H Hin.
  destruct (decompile_glob_event _ _ _ _ _ _ _ _ H Hin)
    as (target & path & pre & post & _ & _ & _ & _ & Hev & _ & Hr & ->).
  split; [done |]. by exists pre.
Qed.

(** ** Strings *)

Lemma append_nil (t : string) : "" +:+ t = t.
Proof. reflexivity. Qed.

Lemma append_cons c (s t : string) : String c s +:+ t = String c (s +:+ t).
Proof. reflexivity. Qed.

Lemma append_empty_r (s : string) : s +:+ "" = s.
Proof.
  induction s as [| c s IH]; [done |]. by rewrite append_cons, IH.
Qed.

Lemma append_assoc (a b c : string) : (a +:+ b) +:+ c = a +:+ (b +:+ c).
Proof.
  induction a as [| x a IH]; [done |]. by rewrite !append_cons, IH.
Qed.

Lemma substring_refl s : substring s s.
Proof. exists "", "". by rewrite append_nil, append_empty_r. Qed.

Lemma substring_app_l x a b : substring x a → substring x (a +:+ b).
Proof.
  intros (pre & post & ->). exists pre, (post +:+ b).
  by rewrite !append_assoc.
Qed.

Lemma substring_app_r x a b : substring x b → substring x (a +:+ b).
Proof.
  intros (pre & post & ->). exists (a +:+ pre), post.
  by rewrite !append_assoc.
Qed.

Lemma py_join_substring sep l x : x ∈ l → substring x (py_join sep l).
Proof.
  induction l as [| y l IH]; intros Hin; [by apply elem_of_nil in Hin |].
  apply elem_of_cons in Hin. destruct l as [| z l'].
  - destruct Hin as [-> | Hin]; [apply substring_refl |].
    by apply elem_of_nil in Hin.
  - change (py_join sep (y :: z :: l'))
      with (y +:+ sep +:+ py_join sep (z :: l')).
    destruct Hin as [-> | Hin].
    + apply substring_app_l, substring_refl.
    + by apply substring_app_r, substring_app_r, IH.
Qed.

(** C6. When the glob of a decompile run matches more than one path, the
    run returns [None]; after the glob it only prints two messages, the
    second of which lists the name of every candidate, so no file is
    opened. *)
Theorem decompile_ambiguous function self w r self' w' pattern ms :
  decompile function self w = (r, self', w') →
  EvGlob pattern ms ∈ events_since w w' →
  1 < length ms →
  r = inr None ∧
  ∃ pre listing,
    events_since w w' =
    pre ++ [EvGlob pattern ms;
            shown ("ERROR: Multiple similar or duplicate functions found with name `"
                   +:+ function +:+ "`");
            shown listing] ∧
    listing = "Specify with `decompile {"
              +:+ py_join ", " (List.map candidate_name ms) +:+ "}`" ∧
    ∀ m, m ∈ ms → substring (candidate_name m) listing.
Proof.
  intros H Hin Hlen.
  destruct (decompile_glob_event _ _ _ _ _ _ _ _ H Hin)
    as (target & path & pre & post & _ & _ & _ & _ & Hev & _ & Hm).
  destruct ms as [| f1 [| f2 rest]]; simpl in Hlen; [lia | lia |].
  destruct Hm as [-> ->]. split; [done |].
  eexists pre, _. split; [exact Hev |]. split; [reflexivity |].
  intros m Hmem.
  apply substring_app_r, substring_app_l, py_join_substring.
  apply list_elem_of_In, in_map, list_elem_of_In, Hmem.
Qed.

(** ** The target query *)

Lemma executeCapture_run command self w :
  executeCapture command self w =
  (result (executeCapture command self w), self,
   world (executeCapture command self w)).
Proof.
  destruct (quiet_executeCapture command self w) as [Ho _].
  destruct (executeCapture command self w) as [[r s1] w1].
  unfold object, result, world in *. simpl in *. by subst.
Qed.

Lemma getTarget_none self w :
  result (executeCapture "info target" self w) = inr (Some "") →
  _getTarget self w =
  (inr None, self, world (executeCapture "info target" self w)).
Proof.
  intros H. unfold _getTarget, mbind, M_bind.
  rewrite executeCapture_run, H. reflexivity.
Qed.

(** C3. When the target query returns the empty text, decompile prints
    "No target is loaded" and returns [None]; the object is unchanged, the
    file system is as the query left it, and the run clears, creates,
    fills or globs nothing. *)
Theorem decompile_no_target function self w :
  result (executeCapture "info target" self w) = inr (Some "") →
  let w1 := world (executeCapture "info target" self w) in
  decompile function self w =
    (inr None, self, log w1 (shown "ERROR: No target is loaded")) ∧
  ∀ e, e ∈ events_since w (log w1 (shown "ERROR: No target is loaded")) →
       is_cache_event e = false ∧ is_glob e = false.
Proof.
  intros H w1. split.
  - rewrite decompile_eq. unfold mbind at 1, M_bind at 1.
    rewrite (getTarget_none _ _ H). reflexivity.
  - destruct (quiet_executeCapture "info target" self w) as [_ He].
    fold w1 in He.
    assert (He' : extends capture_event w
                    (log w1 (shown "ERROR: No target is loaded"))).
    { eapply extends_trans; [exact He |]. by apply extends_log. }
    apply events_since_extends in He' as [_ Hall].
    rewrite Forall_forall in Hall.
    intros e Hin. apply Hall in Hin. by destruct e.
Qed.

(** ** The command handler *)

Lemma py_split_length sep s :
  length (py_split sep s) = S (if contains_char sep s
                               then S (pred (length (py_split sep s)) - 1)
                               else 0).
Proof.
  induction s as [| c s IH]; simpl; [done |].
  rewrite (Ascii.eqb_sym sep c).
  destruct (Ascii.eqb c sep) eqn:Hc; simpl.
  - pose proof (py_split_nonempty sep s).
    destruct (py_split sep s); [done | simpl; lia].
  - destruct (py_split sep s) as [| h t] eqn:Hs; [done |].
    simpl in *. destruct (contains_char sep s); lia.
Qed.

Lemma py_split_many sep s :
  contains_char sep s = true → (1 <? length (py_split sep s)) = true.
Proof.
  intros H. rewrite py_split_length, H. by apply Nat.ltb_lt; lia.
Qed.

Lemma py_split_one sep s :
  contains_char sep s = false → py_split sep s = [s].
Proof.
  induction s as [| c s IH]; simpl; [done |].
  rewrite (Ascii.eqb_sym sep c).
  destruct (Ascii.eqb c sep); simpl; [done |].
  intros H. by rewrite IH.
Qed.

(** C4. In a loaded session, an argument that is empty or contains a
    space makes the handler print the two usage messages and return; the
    object, the file system and the debugger are untouched, and decompile
    is not called. *)
Theorem invoke_usage_error arg from_tty self w :
  loaded self = true →
  arg = "" ∨ contains_char chr_space arg = true →
  invoke arg from_tty self w =
  (inr (), self,
   log (log (log w EvDontRepeat) (shown "ERROR: Invalid command"))
     (shown "Usage: `decompile <function name>`")).
Proof.
  intros Hl Harg. unfold invoke, mbind at 1, M_bind at 1, get_self.
  rewrite Hl. simpl.
  destruct (contains_char chr_space arg) eqn:Hc.
  - unfold mbind at 1, M_bind at 1, emit. rewrite (py_split_many _ _ Hc).
    reflexivity.
  - destruct Harg as [-> | ?]; [| done]. reflexivity.
Qed.

(** ** Once per session *)

Lemma capture_non_cache e : capture_event e → non_cache e.
Proof. by destruct e. Qed.

Lemma filter_non_cache evs :
  Forall non_cache evs → List.filter is_cache_event evs = [].
Proof.
  induction 1 as [| e evs He _ IH]; [done |].
  simpl. by rewrite He.
Qed.

Lemma lookup_extends path target function self w r self' w' :
  lookup path target function self w = (r, self', w') →
  self' = self ∧ fs w' = fs w ∧ cwd w' = cwd w ∧ extends non_cache w w'.
Proof.
  intros H. apply lookup_inv in H as (-> & Hfs & Hcwd & _ & H).
  repeat split; try done.
  destruct (glob_raises (cache_pattern path target function)).
  { destruct H as [_ ->]. apply extends_refl. }
  destruct H as (post & Ht & Hm).
  eexists. split; [exact Ht |].
  destruct (glob (fs w) (cwd w) (cache_pattern path target function))
    as [| f1 [| f2 rest]]; destruct Hm as [_ ->]; by repeat constructor.
Qed.

(** With the flag set, a run is a target query and possibly a lookup. *)
Lemma decompile_flagged function self w r self' w' :
  decompile function self w = (r, self', w') →
  decompiled self = true →
  self' = self ∧ List.filter is_cache_event (events_since w w') = [].
Proof.
  intros H Hd.
  apply decompile_inv in H as (r0 & w1 & HT & He & H).
  assert (He1 : extends non_cache w w1)
    by (eapply extends_weaken; [apply capture_non_cache | done]).
  assert (Hgoal : self' = self ∧ extends non_cache w w').
  { destruct r0 as [e | [target |]].
    - by destruct H as (_ & -> & ->).
    - destruct (options self !! "decomp_path") as [[path |] |].
      2, 3: by destruct H as (_ & -> & ->).
      rewrite Hd in H. apply lookup_extends in H as (-> & _ & _ & He2).
      split; [done |]. eapply extends_trans; eauto.
    - destruct H as (_ & -> & ->). split; [done |].
      eapply extends_trans; [exact He1 |]. by apply extends_log. }
  destruct Hgoal as [-> Hext]. split; [done |].
  apply events_since_extends in Hext as [_ Hall].
  by apply filter_non_cache.
Qed.

(** The first run that gets through: the cache events are the clearing
    (when the directory existed), the creation, the launch and the exit,
    and the decompiler was started on a tree whose cache directory is
    empty. *)
Lemma decompile_first function self w x self' w' target :
  decompile function self w = (inr x, self', w') →
  result (_getTarget self w) = inr (Some target) →
  decompiled self = false →
  decompiled self' = true ∧
  ∃ path ghidra rc root1,
    let w1 := world (_getTarget self w) in
    let argv := ["ghidrecomp"; "-o"; path; target] in
    let env := <["GHIDRA_INSTALL_DIR" := expanduser ghidra]> environ in
    options self !! "decomp_path" = Some (TStr path) ∧
    options self !! "ghidra_path" = Some (TStr ghidra) ∧
    List.filter is_cache_event (events_since w w') =
      (if fs_exists (fs w1) (cwd w1) path then [EvRmtree path] else [])
      ++ [EvMkdir path; EvRun argv env; EvExited rc] ∧
    fs_scandir root1 (cwd w1) path = Some [] ∧
    subprocess_run argv env (cwd w1) root1 = inr (rc, fs w').
Proof.
  intros H HT Hd.
  apply decompile_stages in H as [(_ & _ & Hr) | H].
  { destruct (Hr x eq_refl) as (_ & HT' & _). congruence. }
  destruct H as (target' & path & w1 & s2 & w2 & HT' & He1 & Hp & Hf & _ & Hl).
  rewrite HT' in HT. unfold result in HT. simpl in HT.
  injection HT as ->. rewrite Hd in Hf.
  apply first_run_inv in Hf as (_ & _ & evs & Ht1 & Hflag & Hcwd & _ & Hrun).
  destruct Hrun as (ghidra & rc & root1 & Hg & Hevs & Hscan & Hrun).
  apply lookup_extends in Hl as (-> & Hfs & _ & He2).
  split; [done |].
  exists path, ghidra, rc, root1. rewrite HT'. unfold world. simpl.
  rewrite Hfs. repeat split; try done.
  destruct He1 as (evs0 & Ht0 & Hall0), He2 as (evs2 & Ht2 & Hall2).
  rewrite (events_since_app w w' (evs0 ++ evs ++ evs2))
    by (by rewrite Ht2, Ht1, Ht0, <- !app_assoc).
  rewrite !List.filter_app, (filter_non_cache evs2 Hall2), app_nil_r.
  rewrite (filter_non_cache evs0); [| by eapply Forall_impl;
    [exact Hall0 | apply capture_non_cache]].
  rewrite Hevs, List.filter_app. simpl.
  by destruct (fs_exists (fs w1) (cwd w1) path).
Qed.

Lemma flag_stays s s' :
  session_reaches s s' → decompiled s = true → decompiled s' = true.
Proof.
  induction 1 as [| s function w r s1 w1 s2 Hrun _ IH]; [done |].
  intros Hd. apply IH.
  by destruct (decompile_flagged _ _ _ _ _ _ Hrun Hd) as [-> _].
Qed.

(** C2, amended. A decompile run that finds a loaded target with the flag
    unset and raises no exception clears the cache directory if it
    exists, creates it, launches the decompiler once on the empty
    directory and sets the flag; whatever the session does afterwards, no
    later decompile run clears, creates or launches anything. *)
Theorem decompile_once function self w x self' w' target :
  decompile function self w = (inr x, self', w') →
  result (_getTarget self w) = inr (Some target) →
  decompiled self = false →
  (decompiled self' = true ∧
   ∃ path ghidra rc root1,
     let w1 := world (_getTarget self w) in
     let argv := ["ghidrecomp"; "-o"; path; target] in
     let env := <["GHIDRA_INSTALL_DIR" := expanduser ghidra]> environ in
     options self !! "decomp_path" = Some (TStr path) ∧
     options self !! "ghidra_path" = Some (TStr ghidra) ∧
     List.filter is_cache_event (events_since w w') =
       (if fs_exists (fs w1) (cwd w1) path then [EvRmtree path] else [])
       ++ [EvMkdir path; EvRun argv env; EvExited rc] ∧
     fs_scandir root1 (cwd w1) path = Some [] ∧
     subprocess_run argv env (cwd w1) root1 = inr (rc, fs w')) ∧
  ∀ later function' v r' later' v',
    session_reaches self' later →
    decompile function' later v = (r', later', v') →
    decompiled later' = true ∧
    List.filter is_cache_event (events_since v v') = [].
Proof.
  intros H HT Hd.
  destruct (decompile_first _ _ _ _ _ _ _ H HT Hd) as [Hflag Hfirst].
  split; [by split |].
  intros later function' v r' later' v' Hreach Hrun.
  pose proof (flag_stays _ _ Hreach Hflag) as Hlater.
  destruct (decompile_flagged _ _ _ _ _ _ Hrun Hlater) as [-> Hnone].
  by split.
Qed.

(** C10, amended. The flag is set by a run exactly when the decompiler
    process ran to its exit in it, whatever the return code; a set flag
    stays set and such a run never clears, creates or launches anything. *)
Theorem exit_status_ignored function self w r self' w' :
  decompile function self w = (r, self', w') →
  (∀ rc, EvExited rc ∈ events_since w w' → decompiled self' = true) ∧
  (decompiled self = false →
   (∀ rc, EvExited rc ∉ events_since w w') → decompiled self' = false) ∧
  (decompiled self = true →
   decompiled self' = true ∧
   List.filter is_cache_event (events_since w w') = []).
Proof.
  intros H. split; [| split].
  - intros rc Hin.
    pose proof H as H'.
    apply decompile_stages in H' as [(_ & He & _) | H'].
    { apply events_since_extends in He as [_ Hall].
      rewrite Forall_forall in Hall. by apply Hall in Hin. }
    destruct H' as (target & path & w1 & s2 & w2 & _ & _ & _ & Hf & _ & Hl).
    apply lookup_extends in Hl as (-> & _).
    destruct (decompiled self) eqn:Hd.
    + by destruct Hf as [-> _].
    + by apply first_run_inv in Hf as (_ & _ & _ & _ & ? & _).
  - intros Hd Hno.
    pose proof H as H'.
    apply decompile_stages in H' as [(-> & _) | H']; [done |].
    destruct H' as (target & path & w1 & s2 & w2 & _ & He1 & _ & Hf & _ & Hl).
    rewrite Hd in Hf.
    apply first_run_inv in Hf as (_ & _ & evs & Ht1 & _ & _ & _ & Hrun).
    destruct Hrun as (ghidra & rc & root1 & _ & Hevs & _).
    apply lookup_extends in Hl as (_ & _ & _ & evs2 & Ht2 & _).
    destruct He1 as (evs0 & Ht0 & _).
    exfalso. apply (Hno rc).
    rewrite (events_since_app w w' (evs0 ++ evs ++ evs2))
      by (by rewrite Ht2, Ht1, Ht0, <- !app_assoc).
    rewrite Hevs. apply elem_of_app. right. apply elem_of_app. left.
    apply elem_of_app. right. repeat constructor.
  - intros Hd.
    by destruct (decompile_flagged _ _ _ _ _ _ H Hd) as [-> Hnone].
Qed.

(** ** Construction *)

(** The constructor never raises and always leaves [loaded] set: the
    assignment follows the [try] statement, whichever handler ran. *)
Lemma init_loaded w :
  result (Decompile w) = inr () ∧
  loaded (object (Decompile w)) = true ∧
  decompiled (object (Decompile w)) = false.
Proof.
  unfold Decompile, __init__, _loadConfig, try_except, open_read, display,
    print, set_loaded, set_options, set_decompiled, emit, get_world, raise,
    mbind, M_bind, mret, M_ret, result, object. simpl.
  destruct (fs_read_text _ _ _) as [e | text]; simpl.
  - by destruct e.
  - by destruct (toml_loads text).
Qed.

(** ** When the handler returns *)

Lemma clear_and_create root cwd p :
  cache_creatable root cwd p = true →
  ∃ root2,
    (if fs_exists root cwd p
     then ∃ root1, fs_rmtree root cwd p = inr root1 ∧
                   fs_mkdir root1 cwd p = inr root2
     else fs_mkdir root cwd p = inr root2).
Proof.
  unfold cache_creatable. destruct (fs_exists root cwd p).
  - destruct (fs_rmtree root cwd p) as [[e left] | root1]; [done |].
    destruct (fs_mkdir root1 cwd p) as [e | root2] eqn:Hm; [done |].
    intros _. by exists root2, root1.
  - destruct (fs_mkdir root cwd p) as [e | root2] eqn:Hm; [done |].
    intros _. by exists root2.
Qed.

Lemma first_run_ok self0 path target ghidra self w :
  options self0 !! "ghidra_path" = Some (TStr ghidra) →
  cache_creatable (fs w) (cwd w) path = true →
  (∀ root', ∃ rc root2,
     subprocess_run ["ghidrecomp"; "-o"; path; target]
       (<["GHIDRA_INSTALL_DIR" := expanduser ghidra]> environ) (cwd w) root'
     = inr (rc, root2)) →
  ∃ s2 w2, first_run self0 path target self w = (inr (), s2, w2).
Proof.
  intros Hg Hc Hrun.
  destruct (clear_and_create _ _ _ Hc) as [root2 H].
  destruct (Hrun root2) as (rc & root3 & Hr).
  unfold first_run, os_path_exists, shutil_rmtree, os_mkdir, fs_update, run,
    display, print, dict_get, as_path, emit, get_world, put_fs,
    set_decompiled, raise, mbind, M_bind, mret, M_ret. simpl.
  destruct (fs_exists (fs w) (cwd w) path); simpl.
  - destruct H as (root1 & -> & Hmk). simpl. rewrite Hmk. simpl.
    rewrite Hg. simpl. rewrite Hr. simpl. eauto.
  - rewrite H. simpl. rewrite Hg. simpl. rewrite Hr. simpl. eauto.
Qed.

Lemma decompile_returns function self w t :
  result (_getTarget self w) = inr t →
  (∀ target, t = Some target →
     ∃ path,
       let w1 := world (_getTarget self w) in
       let w' := world (decompile function self w) in
       options self !! "decomp_path" = Some (TStr path) ∧
       (decompiled self = false →
        ∃ ghidra,
          options self !! "ghidra_path" = Some (TStr ghidra) ∧
          cache_creatable (fs w1) (cwd w1) path = true ∧
          ∀ root', ∃ rc root2,
            subprocess_run ["ghidrecomp"; "-o"; path; target]
              (<["GHIDRA_INSTALL_DIR" := expanduser ghidra]> environ)
              (cwd w1) root' = inr (rc, root2)) ∧
       glob_raises (cache_pattern path target function) = false ∧
       single_is_text (fs w') (cwd w')
         (cache_pattern path target function) = true) →
  ∃ x, result (decompile function self w) = inr x.
Proof.
  intros HT Hok.
  destruct (decompile function self w) as [[r s'] w'] eqn:H.
  unfold result, world in *. simpl in *.
  apply decompile_inv in H as (r0 & w1 & HT' & _ & H).
  rewrite HT' in HT, Hok. simpl in HT, Hok. subst r0.
  destruct t as [target |].
  2: { destruct H as (-> & _). eauto. }
  destruct (Hok target eq_refl) as (path & Hp & Hfirst & Hglob & Hfile).
  rewrite Hp in H.
  assert (Hl : ∃ s2 w2, lookup path target function s2 w2 = (r, s', w')).
  { destruct (decompiled self) eqn:Hd; [eauto |].
    destruct H as (r1 & s2 & w2 & Hf & H).
    destruct (Hfirst eq_refl) as (ghidra & Hg & Hc & Hrun).
    destruct (first_run_ok self path target ghidra self w1 Hg Hc Hrun)
      as (s2' & w2' & Hf').
    rewrite Hf' in Hf. injection Hf as <- <- <-. eauto. }
  destruct Hl as (s2 & w2 & Hl).
  apply lookup_inv in Hl as (_ & Hfs & Hcwd & _ & Hl).
  rewrite Hglob in Hl. destruct Hl as (post & _ & Hm).
  unfold single_is_text in Hfile. rewrite Hfs, Hcwd in Hfile.
  destruct (glob (fs w2) (cwd w2) (cache_pattern path target function))
    as [| f1 [| f2 rest]].
  - destruct Hm as [-> _]. eauto.
  - destruct Hm as [-> _]. unfold fs_read_text, read_text.
    destruct (fs_stat (fs w2) (cwd w2) f1) as [[c | m] |] eqn:Hs; try done.
    rewrite (fs_read_file _ _ _ _ Hs).
    destruct (decode c); [done | eauto].
  - destruct Hm as [-> _]. eauto.
Qed.

(** The handler, as a function of what decompile does. *)
Lemma invoke_run arg from_tty self w :
  invoke arg from_tty self w =
  if negb (loaded self)
  then (inr (), self,
        log w (shown "ERROR: Extension improperly loaded. Exiting."))
  else
    let v := log w EvDontRepeat in
    if contains_char chr_space arg || String.eqb arg ""
    then (inr (), self,
          log (log v (shown "ERROR: Invalid command"))
            (shown "Usage: `decompile <function name>`"))
    else
      match decompile arg self v with
      | (inr (Some code), self', w') =>
          (inr (), self', log w' (EvPrint (highlight code)))
      | (inr None, self', w') => (inr (), self', w')
      | (inl e, self', w') => (inl e, self', w')
      end.
Proof.
  unfold invoke, get_self, mbind at 1, M_bind at 1.
  destruct (loaded self); simpl; [| reflexivity].
  unfold emit, mbind at 1, M_bind at 1.
  destruct (contains_char chr_space arg) eqn:Hc; simpl.
  { rewrite (py_split_many _ _ Hc). reflexivity. }
  rewrite (py_split_one _ _ Hc). simpl.
  unfold list_get. simpl. unfold mbind at 1, M_bind at 1, mret, M_ret.
  destruct (String.eqb arg ""); [reflexivity |].
  unfold mbind, M_bind, print, emit.
  destruct (decompile arg self (log w EvDontRepeat)) as [[[e | [code |]] s'] w'];
    reflexivity.
Qed.

(** C8, amended. The handler returns without an exception when the target
    query raises none and, if it found a target, the options give
    [decomp_path] as a string, a first run finds [ghidra_path] as a
    string, a cache path on which [rmtree] (if it exists) and [mkdir]
    succeed and a decompiler that can be launched, the glob of the lookup
    raises no [ValueError] (its pattern has no NUL character in a
    directory part that is scanned), and a unique match of the lookup is
    a regular file whose bytes decode. Usage errors, a missing target and
    a missing or ambiguous match are then only printed. The conditions
    are read in the world [v] in which the handler calls decompile. *)
Theorem invoke_returns arg from_tty self w t :
  let v := log w EvDontRepeat in
  result (_getTarget self v) = inr t →
  (∀ target, t = Some target →
     ∃ path,
       let w1 := world (_getTarget self v) in
       let w' := world (decompile arg self v) in
       options self !! "decomp_path" = Some (TStr path) ∧
       (decompiled self = false →
        ∃ ghidra,
          options self !! "ghidra_path" = Some (TStr ghidra) ∧
          cache_creatable (fs w1) (cwd w1) path = true ∧
          ∀ root', ∃ rc root2,
            subprocess_run ["ghidrecomp"; "-o"; path; target]
              (<["GHIDRA_INSTALL_DIR" := expanduser ghidra]> environ)
              (cwd w1) root' = inr (rc, root2)) ∧
       glob_raises (cache_pattern path target arg) = false ∧
       single_is_text (fs w') (cwd w')
         (cache_pattern path target arg) = true) →
  result (invoke arg from_tty self w) = inr ().
Proof.
  intros v HT Hok.
  destruct (decompile_returns arg self v t HT Hok) as [x Hx].
  rewrite invoke_run. fold v.
  destruct (negb (loaded self)); [done |]. simpl.
  destruct (contains_char chr_space arg || String.eqb arg ""); [done |].
  destruct (decompile arg self v) as [[r s'] w'].
  unfold result in Hx. simpl in Hx. subst r. by destruct x.
Qed.

(** ** Patterns without wildcards in the function name *)

Lemma has_magic_app a b : has_magic (a +:+ b) = has_magic a || has_magic b.
Proof.
  induction a as [| c a IH]; [done |].
  rewrite append_cons. simpl. by rewrite IH, orb_assoc.
Qed.

Lemma contains_char_app c a b :
  contains_char c (a +:+ b) = contains_char c a || contains_char c b.
Proof.
  induction a as [| d a IH]; [done |].
  rewrite append_cons. simpl. by rewrite IH, orb_assoc.
Qed.

Lemma length_append a b :
  String.length (a +:+ b) = String.length a + String.length b.
Proof.
  induction a as [| c a IH]; [done |].
  rewrite append_cons. simpl. by rewrite IH.
Qed.

Lemma parse_empty fuel : parse_pattern fuel "" = [].
Proof. by destruct fuel. Qed.

Lemma parse_literal lit : ∀ fuel,
  has_magic lit = false →
  String.length lit < fuel →
  parse_pattern fuel (lit +:+ "*") = lit_toks lit ++ [TStar].
Proof.
  induction lit as [| c lit IH]; intros fuel Hm Hlen.
  - destruct fuel as [| fuel]; [simpl in Hlen; lia |].
    rewrite append_nil. simpl. by rewrite parse_empty.
  - destruct fuel as [| fuel]; [simpl in Hlen; lia |].
    simpl in Hm, Hlen. apply orb_false_elim in Hm as [Hc Hm].
    unfold is_magic_char in Hc.
    apply orb_false_elim in Hc as [Hc H3].
    apply orb_false_elim in Hc as [H1 H2].
    rewrite append_cons. simpl. rewrite H1, H2, H3.
    rewrite IH; [done | done | lia].
Qed.

Lemma match_star name : match_toks [TStar] name = true.
Proof.
  induction name as [| c name IH]; [done |].
  simpl in *. exact IH.
Qed.

Lemma match_literal lit : ∀ name,
  match_toks (lit_toks lit ++ [TStar]) name = startswith lit name.
Proof.
  induction lit as [| c lit IH]; intros name.
  - apply match_star.
  - destruct name as [| d name]; [done |].
    simpl. by rewrite IH.
Qed.

Lemma fnmatch_prefix name lit :
  has_magic lit = false →
  fnmatch name (lit +:+ "*") = startswith lit name.
Proof.
  intros Hm. unfold fnmatch.
  rewrite parse_literal; [apply match_literal | done |].
  rewrite length_append. simpl. lia.
Qed.

(** ** Paths *)

Lemma rsplit_no_slash t :
  contains_char chr_slash t = false → rsplit_slash t = ("", t).
Proof.
  induction t as [| c t IH]; [done |].
  cbn [contains_char rsplit_slash]. intros H.
  apply orb_false_elim in H as [Hc Ht].
  rewrite Ascii.eqb_sym in Hc. by rewrite (IH Ht), Hc.
Qed.

Lemma rsplit_dir d : ∀ t,
  contains_char chr_slash t = false →
  rsplit_slash (d +:+ "/" +:+ t) = (d +:+ "/", t).
Proof.
  induction d as [| c d IH]; intros t Ht.
  - rewrite !append_nil. change ("/" +:+ t) with (String chr_slash t).
    cbn [rsplit_slash]. by rewrite (rsplit_no_slash _ Ht), Ascii.eqb_refl.
  - rewrite (append_cons c d). cbn [rsplit_slash]. rewrite (IH _ Ht).
    by destruct d.
Qed.

Lemma rstrip_char_id c d :
  endswith_char c d = false → rstrip_char c d = d.
Proof.
  induction d as [| x d IH]; [done |].
  destruct d as [| y d'].
  - simpl. by intros ->.
  - intros H. change (endswith_char c (String y d') = false) in H.
    change (rstrip_char c (String x (String y d')))
      with (match rstrip_char c (String y d') with
            | EmptyString => if Ascii.eqb c x then "" else String x ""
            | r => String x r
            end).
    by rewrite (IH H).
Qed.

Lemma rstrip_char_snoc c d :
  rstrip_char c (d +:+ String c "") = rstrip_char c d.
Proof.
  induction d as [| x d IH].
  - rewrite append_nil. cbn [rstrip_char]. by rewrite Ascii.eqb_refl.
  - rewrite append_cons. cbn [rstrip_char]. by rewrite IH.
Qed.

Lemma all_slashes_dir d :
  d ≠ "" → endswith_char chr_slash d = false →
  all_slashes (d +:+ "/") = false.
Proof.
  induction d as [| x d IH]; [done |]. intros _ H.
  rewrite append_cons. cbn [all_slashes].
  destruct d as [| y d'].
  - cbn [endswith_char] in H. by rewrite Ascii.eqb_sym, H.
  - rewrite IH; [apply andb_false_r | done | exact H].
Qed.

Lemma path_split_dir d t :
  d ≠ "" → endswith_char chr_slash d = false →
  contains_char chr_slash t = false →
  path_split (d +:+ "/" +:+ t) = (d, t).
Proof.
  intros Hd He Ht. unfold path_split. rewrite (rsplit_dir _ _ Ht).
  destruct (d +:+ "/") as [| c rest] eqn:Hdr.
  { destruct d; discriminate. }
  rewrite <- Hdr, (all_slashes_dir _ Hd He).
  change "/" with (String chr_slash "").
  by rewrite rstrip_char_snoc, (rstrip_char_id _ _ He).
Qed.

Lemma startswith_slash_no t :
  contains_char chr_slash t = false → startswith "/" t = false.
Proof.
  destruct t as [| c t]; [done |]. cbn [contains_char].
  intros H. apply orb_false_elim in H as [Hc _].
  change (startswith "/" (String c t))
    with (Ascii.eqb chr_slash c && true). by rewrite Hc.
Qed.

Lemma path_join2_dir d t :
  d ≠ "" → endswith_char chr_slash d = false →
  contains_char chr_slash t = false →
  path_join2 d t = d +:+ "/" +:+ t.
Proof.
  intros Hd He Ht. unfold path_join2.
  rewrite (startswith_slash_no _ Ht), He. by destruct d.
Qed.

Lemma basename_no_slash p : contains_char chr_slash (basename p) = false.
Proof.
  unfold basename. induction p as [| c p IH]; [done |].
  cbn [rsplit_slash]. destruct (rsplit_slash p) as [h t]. cbn [snd] in IH.
  destruct h as [| x h].
  - destruct (Ascii.eqb c chr_slash) eqn:Hc; cbn [snd contains_char];
      [done |].
    by rewrite Ascii.eqb_sym, Hc.
  - done.
Qed.

Lemma endswith_app c a b :
  b ≠ "" → endswith_char c (a +:+ b) = endswith_char c b.
Proof.
  intros Hb. induction a as [| x a IH]; [done |].
  rewrite append_cons.
  destruct (a +:+ b) as [| y r] eqn:Hab.
  { destruct a; [by rewrite append_nil in Hab | discriminate]. }
  exact IH.
Qed.

Lemma endswith_no c t : contains_char c t = false → endswith_char c t = false.
Proof.
  induction t as [| x t IH]; [done |]. cbn [contains_char]. intros H.
  apply orb_false_elim in H as [Hc Ht].
  destruct t; [done | by apply IH].
Qed.

(** The cache subdirectory of a target with a base name is a proper
    directory path. *)
Lemma cache_dir_shape path base :
  base ≠ "" → contains_char chr_slash base = false →
  path_join2 path base ≠ "" ∧
  endswith_char chr_slash (path_join2 path base) = false.
Proof.
  intros Hb Hs. unfold path_join2. rewrite (startswith_slash_no _ Hs).
  pose proof (endswith_no _ _ Hs) as He.
  destruct path as [| c path'] eqn:Hp; [done |].
  rewrite <- Hp.
  destruct (endswith_char chr_slash path).
  - split; [subst; by rewrite append_cons | by rewrite endswith_app].
  - split; [subst; by rewrite append_cons |].
    rewrite endswith_app; [| by destruct base].
    change ("/" +:+ base) with (String chr_slash base).
    by destruct base.
Qed.

(** ** The lookup, for a plain function name *)

Lemma bind_singleton {A B} (f : A → B) (l : list A) :
  (x ← l; [f x]) = List.map f l.
Proof. induction l as [| a l IH]; [done |]. csimpl. by rewrite IH. Qed.

Lemma filter_true {A} (l : list A) : List.filter (λ _, true) l = l.
Proof. induction l as [| a l IH]; [done |]. simpl. by rewrite IH. Qed.

Lemma filter_filter_implied {A} (f g : A → bool) (l : list A) :
  (∀ x, f x = true → g x = true) →
  List.filter f (List.filter g l) = List.filter f l.
Proof.
  intros Himp. induction l as [| a l IH]; [done |]. simpl.
  destruct (g a) eqn:Hg; simpl.
  - by rewrite IH.
  - destruct (f a) eqn:Hf; [| done].
    apply Himp in Hf. congruence.
Qed.

Lemma filter_ext_bool {A} (f g : A → bool) (l : list A) :
  (∀ x, f x = g x) → List.filter f l = List.filter g l.
Proof.
  intros H. induction l as [| a l IH]; [done |]. simpl.
  by rewrite H, IH.
Qed.

Lemma glob_listdir_all root cwd dir :
  dir ≠ "" → glob_listdir root cwd dir false = listdir root cwd dir.
Proof.
  intros Hd. unfold glob_listdir, listdir.
  destruct dir; [done |].
  destruct (fs_scandir root cwd _); [| done].
  by rewrite filter_true.
Qed.

Lemma glob1_prefix root cwd dir function :
  dir ≠ "" → function ≠ "" → has_magic function = false →
  glob1 root cwd dir (function +:+ "*") false =
  List.filter (startswith function) (listdir root cwd dir).
Proof.
  intros Hd Hf Hm. unfold glob1. rewrite (glob_listdir_all _ _ _ Hd).
  rewrite (filter_ext_bool _ (startswith function));
    [| intros x; by apply fnmatch_prefix].
  destruct (negb (ishidden (function +:+ "*"))) eqn:Hh; [| done].
  apply filter_filter_implied. intros x Hx.
  destruct function as [| c f]; [done |].
  destruct x as [| d x]; [done |].
  rewrite append_cons in Hh. unfold ishidden in *.
  cbn [startswith] in *.
  apply andb_prop in Hx as [Hcd _]. apply Ascii.eqb_eq in Hcd. by subst.
Qed.

Lemma glob_prefix root cwd dir function :
  dir ≠ "" → endswith_char chr_slash dir = false → has_magic dir = false →
  function ≠ "" → has_magic function = false →
  contains_char chr_slash function = false →
  glob root cwd (path_join2 dir function +:+ "*") =
  List.map (path_join2 dir)
    (List.filter (startswith function) (listdir root cwd dir)).
Proof.
  intros Hd He Hmd Hf Hmf Hsf.
  rewrite (path_join2_dir _ _ Hd He Hsf), !append_assoc.
  unfold glob. cbn [iglob].
  rewrite path_split_dir; [| done | done |].
  2: { rewrite contains_char_app, Hsf. done. }
  assert (Hpat : has_magic (dir +:+ "/" +:+ function +:+ "*") = true).
  { rewrite !has_magic_app. by rewrite !orb_true_r. }
  assert (Hbase : has_magic (function +:+ "*") = true).
  { rewrite has_magic_app. by rewrite orb_true_r. }
  rewrite Hpat, Hbase, Hmd, andb_false_r. cbn [negb].
  destruct dir as [| c dir']; [done |].
  csimpl. rewrite app_nil_r, bind_singleton, glob1_prefix; done.
Qed.

(** C9, amended. For a function name that is not empty and has no
    wildcard character and no slash, a target with a base name, and a
    cache subdirectory path without wildcard characters, the candidates
    the lookup considers are exactly the entries of the cache subdirectory
    of the target whose name starts with the function name, each joined
    to the subdirectory. *)
Theorem candidates_by_prefix function self w r self' w' pattern ms
    target path :
  decompile function self w = (r, self', w') →
  EvGlob pattern ms ∈ events_since w w' →
  result (_getTarget self w) = inr (Some target) →
  options self !! "decomp_path" = Some (TStr path) →
  function ≠ "" →
  has_magic function = false →
  contains_char chr_slash function = false →
  basename target ≠ "" →
  let dir := path_join path [basename target] in
  has_magic dir = false →
  ms = List.map (path_join2 dir)
         (List.filter (startswith function)
            (listdir (fs w') (cwd w') dir)).
Proof.
  intros H Hin HT Hp Hf Hmf Hsf Hb dir Hmd.
  destruct (decompile_glob_event _ _ _ _ _ _ _ _ H Hin)
    as (target' & path' & pre & post & HT' & Hp' & -> & -> & _).
  rewrite HT in HT'. injection HT' as <-.
  rewrite Hp in Hp'. injection Hp' as <-.
  destruct (cache_dir_shape path (basename target) Hb
              (basename_no_slash target)) as [Hd He].
  unfold cache_pattern.
  change (path_join path [basename target; function])
    with (path_join2 dir function).
  by apply glob_prefix.
Qed.

(** ** The fuel of the pattern reader and of the glob is enough *)

Lemma until_rbracket_shorter s : ∀ body rest,
  until_rbracket s = Some (body, rest) → String.length rest < String.length s.
Proof.
  induction s as [| c s IH]; intros body rest H; [done |].
  cbn [until_rbracket] in H.
  destruct (Ascii.eqb c "]"%char).
  - injection H as _ <-. simpl. lia.
  - destruct (until_rbracket s) as [[b r] |]; [| done].
    injection H as _ <-. specialize (IH b r eq_refl). simpl. lia.
Qed.

Lemma take_class_shorter s neg body rest :
  take_class s = Some (neg, body, rest) → String.length rest < String.length s.
Proof.
  unfold take_class.
  set (p1 := match s with
             | String "!"%char s' => (true, s')
             | _ => (false, s)
             end).
  assert (H1 : String.length p1.2 ≤ String.length s).
  { subst p1. destruct s as [| c s']; [done |].
    destruct c as [[] [] [] [] [] [] [] []]; simpl; lia. }
  destruct p1 as [neg1 s1]. cbn [snd] in H1.
  set (p2 := match s1 with
             | String "]"%char s' => ("]", s')
             | _ => ("", s1)
             end).
  assert (H2 : String.length p2.2 ≤ String.length s1).
  { subst p2. destruct s1 as [| c s']; [done |].
    destruct c as [[] [] [] [] [] [] [] []]; simpl; lia. }
  destruct p2 as [lead s2]. cbn [snd] in H2.
  destruct (until_rbracket s2) as [[b r] |] eqn:Hu; [| done].
  intros H. injection H as _ _ <-.
  apply until_rbracket_shorter in Hu. lia.
Qed.

Lemma parse_pattern_stable n : ∀ m pat,
  String.length pat ≤ n → String.length pat ≤ m →
  parse_pattern n pat = parse_pattern m pat.
Proof.
  induction n as [| n IH]; intros m pat Hn Hm.
  - destruct pat; [| simpl in Hn; lia]. by rewrite (parse_empty m).
  - destruct pat as [| c rest]; [by rewrite !parse_empty |].
    destruct m as [| m]; [simpl in Hm; lia |].
    simpl in Hn, Hm. cbn [parse_pattern].
    destruct (Ascii.eqb c "*"%char); [f_equal; apply IH; lia |].
    destruct (Ascii.eqb c "?"%char); [f_equal; apply IH; lia |].
    destruct (Ascii.eqb c "["%char); [| f_equal; apply IH; lia].
    destruct (take_class rest) as [[[neg body] rest'] |] eqn:Ht.
    + apply take_class_shorter in Ht. f_equal. apply IH; lia.
    + f_equal. apply IH; lia.
Qed.

Lemma rsplit_slash_app p :
  p = (rsplit_slash p).1 +:+ (rsplit_slash p).2.
Proof.
  induction p as [| c p IH]; [done |].
  cbn [rsplit_slash]. destruct (rsplit_slash p) as [h t]. cbn [fst snd] in *.
  destruct h as [| x h].
  - change ("" +:+ t) with t in IH. subst p.
    by destruct (Ascii.eqb_spec c chr_slash) as [-> | _].
  - cbn [fst snd]. by rewrite append_cons, <- IH.
Qed.

Lemma rstrip_char_shorter c s :
  rstrip_char c s = s ∨ String.length (rstrip_char c s) < String.length s.
Proof.
  induction s as [| d s IH]; [by left |].
  cbn [rstrip_char].
  destruct (rstrip_char c s) as [| y r] eqn:Hr.
  - destruct s as [| z s'].
    + destruct (Ascii.eqb c d); [right; simpl; lia | by left].
    + right. destruct (Ascii.eqb c d); simpl; lia.
  - destruct IH as [<- | IH]; [by left |]. right. simpl in *. lia.
Qed.

(** The directory part of a path is the path itself or shorter. *)
Lemma path_split_shorter p :
  (path_split p).1 = p ∨ String.length (path_split p).1 < String.length p.
Proof.
  unfold path_split.
  pose proof (rsplit_slash_app p) as Hp.
  destruct (rsplit_slash p) as [h t]. cbn [fst snd] in *.
  assert (Hlen : String.length p = String.length h + String.length t)
    by (by rewrite Hp at 1; rewrite length_append).
  assert (Hh : h = p ∨ String.length h < String.length p).
  { destruct t as [| x t]; [left; by rewrite Hp, append_empty_r |].
    right. simpl in Hlen. lia. }
  destruct h as [| c h']; [exact Hh |].
  destruct (all_slashes (String c h')); [exact Hh |].
  destruct (rstrip_char_shorter chr_slash (String c h')) as [-> | Hs];
    [exact Hh |].
  right. destruct Hh as [<- | Hh]; [exact Hs | lia].
Qed.

(** More fuel than the length of the path changes nothing: the glob never
    stops for lack of fuel. *)
Lemma iglob_stable root cwd n : ∀ m pathname dironly,
  String.length pathname < n → String.length pathname < m →
  iglob root cwd n pathname dironly = iglob root cwd m pathname dironly.
Proof.
  induction n as [| n IH]; intros m pathname dironly Hn Hm; [lia |].
  destruct m as [| m]; [lia |].
  cbn [iglob].
  pose proof (path_split_shorter pathname) as Hs.
  destruct (path_split pathname) as [dirname basename]. cbn [fst] in Hs.
  destruct (negb (has_magic pathname)); [done |].
  destruct dirname as [| c d]; [done |].
  destruct (String.eqb_spec (String c d) pathname) as [Heq | Hne];
    cbn [negb andb]; [done |].
  destruct (has_magic (String c d)); [| done].
  destruct Hs as [Hs | Hs]; [done |].
  rewrite (IH m (String c d) true); [done | lia | lia].
Qed.

(** ** The flags outside decompile's reach *)

Lemma first_run_keeps self0 path target self w r self' w' :
  first_run self0 path target self w = (r, self', w') →
  loaded self' = loaded self ∧ options self' = options self.
Proof.
  intros H. by apply first_run_inv in H as (? & ? & _).
Qed.

(** Neither decompile nor the handler changes [loaded] or the options. *)
Lemma decompile_keeps function self w r self' w' :
  decompile function self w = (r, self', w') →
  loaded self' = loaded self ∧ options self' = options self.
Proof.
  intros H. apply decompile_inv in H as (r0 & w1 & _ & _ & H).
  destruct r0 as [e | [target |]].
  - by destruct H as (_ & -> & _).
  - destruct (options self !! "decomp_path") as [[path |] |].
    2, 3: by destruct H as (_ & -> & _).
    destruct (decompiled self).
    + by apply lookup_inv in H as (-> & _).
    + destruct H as (r1 & s2 & w2 & Hf & H).
      apply first_run_keeps in Hf.
      destruct r1; [by destruct H as (_ & -> & _) |].
      by apply lookup_inv in H as (-> & _).
  - by destruct H as (_ & -> & _).
Qed.

Lemma invoke_keeps arg from_tty self w :
  loaded (object (invoke arg from_tty self w)) = loaded self ∧
  options (object (invoke arg from_tty self w)) = options self.
Proof.
  rewrite invoke_run.
  destruct (negb (loaded self)); [done |]. cbn zeta.
  destruct (contains_char chr_space arg || String.eqb arg ""); [done |].
  destruct (decompile arg self (log w EvDontRepeat)) as [[r s'] w'] eqn:H.
  apply decompile_keeps in H. by destruct r as [e | [code |]].
Qed.

(** * Further properties of the program *)

(** ** Missing options *)

(** X13. With a target loaded and no [decomp_path] in the options, decompile
    raises [KeyError] for that key; the object and the world are exactly as
    the target query left them. *)
Theorem decompile_missing_decomp_path function self w target :
  result (_getTarget self w) = inr (Some target) →
  options self !! "decomp_path" = None →
  decompile function self w =
  (inl (KeyError "decomp_path"), self, world (_getTarget self w)).
Proof.
  intros HT Hp.
  destruct (decompile function self w) as [[r s'] w'] eqn:H.
  apply decompile_inv in H as (r0 & w1 & HT' & _ & H).
  rewrite HT' in HT |- *. unfold result, world in *. simpl in *. subst r0.
  rewrite Hp in H. by destruct H as (-> & -> & ->).
Qed.

(** X14. With a target loaded, the flag unset and no [ghidra_path] in the
    options, decompile first clears and creates the cache directory and
    only then raises [KeyError] for that key: the cache directory is left
    empty, nothing is launched and the flag stays unset. *)
Theorem decompile_missing_ghidra_path function self w target path :
  result (_getTarget self w) = inr (Some target) →
  options self !! "decomp_path" = Some (TStr path) →
  options self !! "ghidra_path" = None →
  decompiled self = false →
  let w1 := world (_getTarget self w) in
  cache_creatable (fs w1) (cwd w1) path = true →
  let R := decompile function self w in
  result R = inl (KeyError "ghidra_path") ∧
  object R = self ∧
  fs_scandir (fs (world R)) (cwd (world R)) path = Some [] ∧
  events_since w1 (world R) =
    (if fs_exists (fs w1) (cwd w1) path then [EvRmtree path] else [])
    ++ [EvMkdir path].
Proof.
  intros HT Hp Hg Hd w1 Hc R.
  destruct (decompile function self w) as [[r s'] w'] eqn:H. subst R.
  apply decompile_inv in H as (r0 & w1' & HT' & _ & H).
  subst w1. rewrite HT' in HT, Hc |- *. unfold result, object, world in *.
  simpl in *. subst r0. rewrite Hp, Hd in H.
  destruct H as (r1 & s2 & w2 & Hf & H).
  destruct (clear_and_create _ _ _ Hc) as [root2 Hcc].
  revert Hf.
  unfold first_run, os_path_exists, shutil_rmtree, os_mkdir, fs_update,
    dict_get, as_path, emit, get_world, put_fs, raise, mbind, M_bind, mret,
    M_ret. simpl.
  destruct (fs_exists (fs w1') (cwd w1') path); simpl.
  - destruct Hcc as (root1 & -> & Hmk). simpl. rewrite Hmk. simpl.
    rewrite Hg. simpl. intros Hf. injection Hf as <- <- <-.
    destruct H as (-> & -> & ->). simpl.
    repeat split; [by eapply fs_mkdir_scandir |].
    apply events_since_app. simpl. by rewrite <- app_assoc.
  - rewrite Hcc. simpl. rewrite Hg. simpl. intros Hf.
    injection Hf as <- <- <-. destruct H as (-> & -> & ->). simpl.
    repeat split; [by eapply fs_mkdir_scandir |].
    by apply events_since_app.
Qed.

(** ** Function names that are paths *)

Lemma cache_pattern_absolute path target function :
  startswith "/" function = true →
  cache_pattern path target function = function +:+ "*".
Proof.
  intros H. unfold cache_pattern, path_join. simpl.
  unfold path_join2 at 1. by rewrite H.
Qed.

(** X15. A function name that starts with a slash replaces the cache path
    in the pattern: the lookup globs [function*] from the root, whatever
    the configured cache directory and the target are. *)
Theorem absolute_name_leaves_cache function self w r self' w' pattern ms :
  decompile function self w = (r, self', w') →
  EvGlob pattern ms ∈ events_since w w' →
  startswith "/" function = true →
  pattern = function +:+ "*" ∧
  ms = glob (fs w') (cwd w') (function +:+ "*").
Proof.
  intros H Hin Hs.
  destruct (decompile_glob_event _ _ _ _ _ _ _ _ H Hin)
    as (target & path & pre & post & _ & _ & -> & -> & _).
  by rewrite (cache_pattern_absolute _ _ _ Hs).
Qed.

(** ** A session that has decompiled *)

(** X12. With the flag set, decompile changes neither the object nor the
    file system, the working directory or the debugger beyond what its
    target query did. *)
Theorem decompile_cached_readonly function self w r self' w' :
  decompile function self w = (r, self', w') →
  decompiled self = true →
  let w1 := world (_getTarget self w) in
  self' = self ∧ fs w' = fs w1 ∧ cwd w' = cwd w1 ∧ gdb w' = gdb w1.
Proof.
  intros H Hd w1.
  apply decompile_inv in H as (r0 & w1' & HT & _ & H).
  subst w1. rewrite HT. unfold world. simpl.
  destruct r0 as [e | [target |]].
  - by destruct H as (_ & -> & ->).
  - destruct (options self !! "decomp_path") as [[path |] |].
    2, 3: by destruct H as (_ & -> & ->).
    rewrite Hd in H. by apply lookup_inv in H as (-> & -> & -> & -> & _).
  - by destruct H as (_ & -> & ->).
Qed.

(** ** The handler around decompile *)

(** X10. In a loaded session, an argument that is not empty and has no
    space is passed whole to decompile; the handler returns what decompile
    raised or nothing, keeps the object decompile left, and adds to
    decompile's trace only the highlighted source, when there is one. *)
Theorem invoke_valid_argument arg from_tty self w :
  loaded self = true →
  arg ≠ "" →
  contains_char chr_space arg = false →
  let R := decompile arg self (log w EvDontRepeat) in
  let I := invoke arg from_tty self w in
  object I = object R ∧
  result I = match result R with
             | inl e => inl e
             | inr _ => inr ()
             end ∧
  fs (world I) = fs (world R) ∧
  trace (world I) =
    trace (world R) ++ match result R with
                       | inr (Some code) => [EvPrint (highlight code)]
                       | _ => []
                       end.
Proof.
  intros Hl Ha Hs R I. subst R I. rewrite invoke_run, Hl, Hs. simpl.
  destruct (String.eqb_spec arg "") as [-> | _]; [done |].
  destruct (decompile arg self (log w EvDontRepeat)) as [[[e | [code |]] s'] w'];
    unfold object, result, world; simpl; by rewrite ?app_nil_r.
Qed.

(** X11. The handler never changes [loaded] or the options, and never
    unsets the [decompiled] flag. *)
Theorem invoke_session_invariant arg from_tty self w :
  let I := invoke arg from_tty self w in
  loaded (object I) = loaded self ∧
  options (object I) = options self ∧
  (decompiled self = true → decompiled (object I) = true).
Proof.
  intros I. subst I.
  destruct (invoke_keeps arg from_tty self w) as [Hl Ho].
  repeat split; [exact Hl | exact Ho |].
  intros Hd. rewrite invoke_run.
  destruct (negb (loaded self)); [done |]. cbn zeta.
  destruct (contains_char chr_space arg || String.eqb arg ""); [done |].
  destruct (decompile arg self (log w EvDontRepeat)) as [[r s'] w'] eqn:H.
  destruct (decompile_flagged _ _ _ _ _ _ H Hd) as [-> _].
  by destruct r as [e | [code |]].
Qed.

(** ** The names in the listing *)

Lemma rsplit_dot_ext stem : ∀ ext,
  contains_char chr_dot ext = false →
  rsplit_dot (stem +:+ "." +:+ ext) = Some (stem, "." +:+ ext).
Proof.
  assert (Hno : ∀ ext, contains_char chr_dot ext = false →
                       rsplit_dot ext = None).
  { induction ext as [| c ext IH]; [done |]. cbn [contains_char rsplit_dot].
    intros H. apply orb_false_elim in H as [Hc He].
    rewrite (IH He), Ascii.eqb_sym, Hc. done. }
  induction stem as [| c stem IH]; intros ext He.
  - rewrite append_nil. change ("." +:+ ext) with (String chr_dot ext).
    cbn [rsplit_dot]. by rewrite (Hno _ He), Ascii.eqb_refl.
  - rewrite append_cons. cbn [rsplit_dot]. by rewrite (IH _ He).
Qed.

(** X16. The name listed for a candidate [dir/stem.ext] is [stem]: the
    directory and the extension after the last dot are dropped. *)
Theorem candidate_name_stem dir stem ext :
  contains_char chr_slash stem = false →
  contains_char chr_slash ext = false →
  contains_char chr_dot ext = false →
  all_dots stem = false →
  candidate_name (dir +:+ "/" +:+ stem +:+ "." +:+ ext) = stem.
Proof.
  intros Hs He Hd Ha.
  assert (Hname : contains_char chr_slash (stem +:+ "." +:+ ext) = false).
  { rewrite !contains_char_app, Hs, He. done. }
  unfold candidate_name, basename. rewrite (rsplit_dir _ _ Hname). cbn [snd].
  unfold splitext. rewrite (rsplit_no_slash _ Hname), (rsplit_dot_ext _ _ Hd).
  by rewrite Ha.
Qed.

(** ** The wrapper around [gdb.execute] *)

(** X1. [execute] never raises: it returns [True] with the world the
    debugger command left, or it returns [False] after printing the error
    of the command; the object is untouched either way. *)
Theorem execute_never_raises command self w :
  let G := gdb_execute command self w in
  let E := execute command self w in
  object E = self ∧
  match result G with
  | inr _ => result E = inr true ∧ world E = world G
  | inl e =>
      result E = inr false ∧
      world E = log (world G) (shown ("ERROR: " +:+ exn_str e))
  end.
Proof.
  intros G E. subst G E.
  destruct (quiet_gdb_execute command self w) as [Ho _].
  unfold execute, try_except, mbind, M_bind, mret, M_ret.
  destruct (gdb_execute command self w) as [[[e | []] s1] w1];
    unfold object, result, world in *; simpl in *; subst; done.
Qed.

(** ** The capture, command by command *)

Lemma gdb_logging_off self w :
  gdb_execute "set logging enabled off" self w =
  (inr (), self,
   with_gdb (log w (EvGdbExecute "set logging enabled off"))
     (set_logging_enabled (gdb w) false)).
Proof. reflexivity. Qed.

Lemma gdb_height self w :
  gdb_execute "set height 0" self w =
  (inr (), self, log w (EvGdbExecute "set height 0")).
Proof. reflexivity. Qed.

Lemma gdb_logging_file f self w :
  gdb_execute ("set logging file " +:+ f) self w =
  (inr (), self,
   with_gdb (log w (EvGdbExecute ("set logging file " +:+ f)))
     (set_logging_file (gdb w) f)).
Proof. reflexivity. Qed.

Lemma gdb_logging_overwrite self w :
  gdb_execute "set logging overwrite on" self w =
  (inr (), self,
   with_gdb (log w (EvGdbExecute "set logging overwrite on"))
     (set_logging_overwrite (gdb w) true)).
Proof. reflexivity. Qed.

Lemma gdb_logging_redirect self w :
  gdb_execute "set logging redirect on" self w =
  (inr (), self,
   with_gdb (log w (EvGdbExecute "set logging redirect on"))
     (set_logging_redirect (gdb w) true)).
Proof. reflexivity. Qed.

Lemma gdb_logging_on self w :
  gdb_execute "set logging enabled on" self w =
  gdb_open_log self (log w (EvGdbExecute "set logging enabled on")).
Proof. reflexivity. Qed.

Lemma gdb_execute_plain command self w :
  plain_command command = true →
  gdb_execute command self w =
  match respond (gdb w) command with
  | inl msg => (inl (GdbError msg), self, log w (EvGdbExecute command))
  | inr text => gdb_show text self (log w (EvGdbExecute command))
  end.
Proof.
  unfold plain_command. intros H.
  apply andb_prop in H as [H H6]. apply andb_prop in H as [H H5].
  apply andb_prop in H as [H H4]. apply andb_prop in H as [H H3].
  apply andb_prop in H as [H1 H2].
  apply negb_true_iff in H1, H2, H3, H4, H5.
  unfold gdb_execute, emit, get_world, raise, mbind, M_bind.
  cbv beta iota. change (gdb (log w (EvGdbExecute command))) with (gdb w).
  rewrite H1, H2, H3, H4, H5.
  destruct (strip_prefix "set logging file " command); [done |].
  by destruct (respond (gdb w) command).
Qed.

Lemma os_popen_read_run command self w :
  os_popen_read command self w =
  (inr (popen_read command (fs w)).1, self,
   with_fs (log w (EvPopen command)) (popen_read command (fs w)).2).
Proof.
  unfold os_popen_read, emit, get_world, put_fs, mbind, M_bind, mret, M_ret.
  cbv beta iota. change (fs (log w (EvPopen command))) with (fs w).
  by destruct (popen_read command (fs w)).
Qed.

Lemma gdb_open_log_run self w root' :
  logging_enabled (gdb w) = false →
  logging_overwrite (gdb w) = true →
  fs_write (fs w) (cwd w) (logging_file (gdb w)) "" = Some root' →
  gdb_open_log self w =
  (inr (), self, with_gdb (with_fs w root') (set_logging_enabled (gdb w) true)).
Proof.
  intros He Ho Hw.
  unfold gdb_open_log, get_world, put_fs, put_gdb, mbind, M_bind.
  cbv beta iota zeta. by rewrite He, Ho, Hw.
Qed.

Lemma gdb_show_redirected text self w root' :
  logging_enabled (gdb w) = true →
  logging_redirect (gdb w) = true →
  fs_write (fs w) (cwd w) (logging_file (gdb w))
    (file_text w (logging_file (gdb w)) +:+ text) = Some root' →
  gdb_show text self w = (inr (), self, with_fs w root').
Proof.
  intros He Hr Hw.
  unfold gdb_show, get_world, put_fs, mbind, M_bind, mret, M_ret.
  cbv beta iota zeta. by rewrite He, Hr, Hw.
Qed.

Lemma open_read_run p self w :
  open_read p self w =
  (match fs_read_text (fs w) (cwd w) p with
   | inr c => inr c
   | inl e => inl e
   end, self, log w (EvOpen p)).
Proof.
  unfold open_read, emit, get_world, raise, mbind, M_bind, mret, M_ret.
  cbv beta iota. change (fs (log w (EvOpen p))) with (fs w).
  change (cwd (log w (EvOpen p))) with (cwd w).
  by destruct (fs_read_text (fs w) (cwd w) p).
Qed.

Lemma os_remove_run p self w :
  os_remove p self w =
  match fs_remove (fs w) (cwd w) p with
  | inr root' => (inr (), self, with_fs (log w (EvRemove p)) root')
  | inl e => (inl e, self, log w (EvRemove p))
  end.
Proof.
  unfold os_remove, fs_update, emit, get_world, put_fs, raise, mbind, M_bind.
  cbv beta iota. change (fs (log w (EvRemove p))) with (fs w).
  change (cwd (log w (EvRemove p))) with (cwd w).
  by destruct (fs_remove (fs w) (cwd w) p).
Qed.

Ltac wnorm :=
  unfold with_gdb, with_fs, log, set_logging_enabled, set_logging_file,
    set_logging_overwrite, set_logging_redirect;
  cbn [fs cwd gdb trace logging_enabled logging_file logging_overwrite
       logging_redirect respond].

Ltac mstep L :=
  unfold mbind at 1, M_bind at 1; rewrite L; cbv beta iota; wnorm.

Lemma try_except_ok {A} (body : M A) handler self w a self' w' :
  body self w = (inr a, self', w') →
  try_except body handler self w = (inr a, self', w').
Proof. unfold try_except. by intros ->. Qed.

Lemma try_except_caught {A} (body : M A) handler self w e self' w' :
  body self w = (inl e, self', w') →
  try_except body handler self w = handler e self' w'.
Proof. unfold try_except. by intros ->. Qed.

Lemma display_run message self w :
  display message self w = (inr (), self, log w (shown message)).
Proof. reflexivity. Qed.

(** The capture up to the command: logging is on, redirected to the
    emptied temporary file. *)
Lemma capture_prelude command self w root2 :
  let tmp := strip (popen_read "mktemp" (fs w)).1 in
  let root1 := (popen_read "mktemp" (fs w)).2 in
  fs_write root1 (cwd w) tmp "" = Some root2 →
  executeCapture command self w =
  (output ← try_except
     (gdb_execute command;;
      gdb_flush;;
      gdb_execute "set logging enabled off";;
      text ← open_read tmp;
      mret (Some text))
     (λ e,
        gdb_execute "set logging enabled off";;
        display ("ERROR: " +:+ exn_str e);;
        mret None);
   os_remove tmp;;
   mret output) self
    (mkWorld root2 (cwd w) (mkGdb true tmp true true (respond (gdb w)))
       (trace w ++ capture_setup tmp)).
Proof.
  intros tmp root1 Hw2.
  unfold executeCapture.
  mstep os_popen_read_run. fold tmp root1.
  mstep gdb_logging_off. mstep gdb_height. mstep gdb_logging_file.
  mstep gdb_logging_overwrite. mstep gdb_logging_redirect.
  unfold mbind at 1, M_bind at 1. rewrite gdb_logging_on.
  erewrite gdb_open_log_run; [| reflexivity | reflexivity | exact Hw2].
  cbv beta iota. wnorm.
  rewrite <- !app_assoc. reflexivity.
Qed.


Lemma capture_ok command self w text :
  let tmp := strip (popen_read "mktemp" (fs w)).1 in
  let root1 := (popen_read "mktemp" (fs w)).2 in
  regular_file root1 (cwd w) tmp = true →
  plain_command command = true →
  respond (gdb w) command = inr text →
  ∃ root4,
    fs_place root1 (cwd w) tmp None = Some root4 ∧
    fs_exists root4 (cwd w) tmp = false ∧
    executeCapture command self w =
    (match decode text with
     | inr t => inr (Some (universal_newlines t))
     | inl _ => inr None
     end, self,
     mkWorld root4 (cwd w) (mkGdb false tmp true true (respond (gdb w)))
       (trace w ++ capture_setup tmp ++
        [EvGdbExecute command;
         EvGdbExecute "set logging enabled off";
         EvOpen tmp] ++
        match decode text with
        | inr _ => []
        | inl msg => [EvGdbExecute "set logging enabled off";
                      shown ("ERROR: " +:+ msg)]
        end ++
        [EvRemove tmp])).
Proof.
  intros tmp root1 Hreg Hplain Hresp.
  destruct (fs_write_regular root1 (cwd w) tmp "" Hreg)
    as (root2 & Hw2 & Hreg2 & Hrd2 & Hpl2).
  destruct (fs_write_regular root2 (cwd w) tmp text Hreg2)
    as (root3 & Hw3 & Hreg3 & Hrd3 & Hpl3).
  destruct (fs_remove_regular root3 (cwd w) tmp Hreg3)
    as (root4 & Hrm & Hpl4 & Hex).
  exists root4. split; [by rewrite <- Hpl2, <- Hpl3 |]. split; [done |].
  rewrite (capture_prelude command self w root2 Hw2). fold tmp root1.
  unfold mbind at 1, M_bind at 1.
  destruct (decode text) as [msg | t] eqn:Hd.
  - erewrite try_except_caught.
    2: { mstep (λ s v, gdb_execute_plain command s v Hplain). rewrite Hresp.
         erewrite gdb_show_redirected; [| reflexivity | reflexivity |].
         2: { unfold file_text. wnorm. rewrite Hrd2. exact Hw3. }
         cbv beta iota. wnorm.
         unfold gdb_flush.
         unfold mbind at 1, M_bind at 1, mret at 1, M_ret at 1.
         cbv beta iota.
         mstep gdb_logging_off. mstep open_read_run.
         unfold fs_read_text, read_text. rewrite Hrd3, Hd.
         reflexivity. }
    mstep gdb_logging_off. mstep display_run.
    unfold mret at 1, M_ret at 1. cbv beta iota.
    mstep os_remove_run. rewrite Hrm. wnorm.
    unfold mret, M_ret. rewrite <- !app_assoc. reflexivity.
  - erewrite try_except_ok.
    2: { mstep (λ s v, gdb_execute_plain command s v Hplain). rewrite Hresp.
         erewrite gdb_show_redirected; [| reflexivity | reflexivity |].
         2: { unfold file_text. wnorm. rewrite Hrd2. exact Hw3. }
         cbv beta iota. wnorm.
         unfold gdb_flush.
         unfold mbind at 1, M_bind at 1, mret at 1, M_ret at 1.
         cbv beta iota.
         mstep gdb_logging_off. mstep open_read_run.
         unfold fs_read_text, read_text. rewrite Hrd3, Hd.
         unfold mret, M_ret. reflexivity. }
    cbv beta iota. mstep os_remove_run. rewrite Hrm. wnorm.
    unfold mret, M_ret. rewrite <- !app_assoc. reflexivity.
Qed.

Lemma capture_error command self w msg :
  let tmp := strip (popen_read "mktemp" (fs w)).1 in
  let root1 := (popen_read "mktemp" (fs w)).2 in
  regular_file root1 (cwd w) tmp = true →
  plain_command command = true →
  respond (gdb w) command = inl msg →
  ∃ root4,
    fs_place root1 (cwd w) tmp None = Some root4 ∧
    fs_exists root4 (cwd w) tmp = false ∧
    executeCapture command self w =
    (inr None, self,
     mkWorld root4 (cwd w) (mkGdb false tmp true true (respond (gdb w)))
       (trace w ++ capture_setup tmp ++
        [EvGdbExecute command;
         EvGdbExecute "set logging enabled off";
         shown ("ERROR: " +:+ msg);
         EvRemove tmp])).
Proof.
  intros tmp root1 Hreg Hplain Hresp.
  destruct (fs_write_regular root1 (cwd w) tmp "" Hreg)
    as (root2 & Hw2 & Hreg2 & Hrd2 & Hpl2).
  destruct (fs_remove_regular root2 (cwd w) tmp Hreg2)
    as (root4 & Hrm & Hpl4 & Hex).
  exists root4. split; [by rewrite <- Hpl2 |]. split; [done |].
  rewrite (capture_prelude command self w root2 Hw2). fold tmp root1.
  unfold mbind at 1, M_bind at 1.
  erewrite try_except_caught.
  2: { mstep (λ s v, gdb_execute_plain command s v Hplain). rewrite Hresp.
       reflexivity. }
  mstep gdb_logging_off. mstep display_run.
  unfold mret at 1, M_ret at 1. cbv beta iota.
  mstep os_remove_run. rewrite Hrm. wnorm.
  unfold mret, M_ret. rewrite <- !app_assoc. reflexivity.
Qed.

(** ** Capturing a command's output *)

(** X2. When [mktemp] names a regular file and the debugger answers the
    command with an output, the capture reads that output back as text:
    it returns the decoded output with every line ending turned into a
    line feed, or, when the output does not decode, disables logging
    again, prints the error and returns [None]. Either way it leaves the
    object alone and removes the temporary file and nothing else; the
    debugger is left with logging disabled and with the settings of the
    capture: the removed file as log file, overwrite and redirect on. *)
Theorem executeCapture_returns_output command self w text :
  let tmp := strip (popen_read "mktemp" (fs w)).1 in
  let root1 := (popen_read "mktemp" (fs w)).2 in
  regular_file root1 (cwd w) tmp = true →
  plain_command command = true →
  respond (gdb w) command = inr text →
  let R := executeCapture command self w in
  object R = self ∧
  fs_place root1 (cwd w) tmp None = Some (fs (world R)) ∧
  fs_exists (fs (world R)) (cwd w) tmp = false ∧
  gdb (world R) = mkGdb false tmp true true (respond (gdb w)) ∧
  match decode text with
  | inr t =>
      result R = inr (Some (universal_newlines t)) ∧
      events_since w (world R) =
        capture_setup tmp ++
        [EvGdbExecute command; EvGdbExecute "set logging enabled off";
         EvOpen tmp; EvRemove tmp]
  | inl msg =>
      result R = inr None ∧
      events_since w (world R) =
        capture_setup tmp ++
        [EvGdbExecute command; EvGdbExecute "set logging enabled off";
         EvOpen tmp; EvGdbExecute "set logging enabled off";
         shown ("ERROR: " +:+ msg); EvRemove tmp]
  end.
Proof.
  intros tmp root1 Hreg Hplain Hresp R. subst R.
  destruct (capture_ok command self w text Hreg Hplain Hresp)
    as (root4 & Hpl & Hex & ->).
  unfold result, object, world. cbn [fst snd fs gdb].
  do 4 (split; [done |]).
  destruct (decode text) as [msg | t]; (split; [done |]);
    apply events_since_app; reflexivity.
Qed.

(** X3. When the debugger rejects the command, the capture does not raise:
    it disables logging, prints the error message, removes the temporary
    file and returns [None]; the logging settings of the capture stay. *)
Theorem executeCapture_command_error command self w msg :
  let tmp := strip (popen_read "mktemp" (fs w)).1 in
  let root1 := (popen_read "mktemp" (fs w)).2 in
  regular_file root1 (cwd w) tmp = true →
  plain_command command = true →
  respond (gdb w) command = inl msg →
  let R := executeCapture command self w in
  result R = inr None ∧
  object R = self ∧
  fs_place root1 (cwd w) tmp None = Some (fs (world R)) ∧
  fs_exists (fs (world R)) (cwd w) tmp = false ∧
  gdb (world R) = mkGdb false tmp true true (respond (gdb w)) ∧
  events_since w (world R) =
    capture_setup tmp ++
    [EvGdbExecute command; EvGdbExecute "set logging enabled off";
     shown ("ERROR: " +:+ msg); EvRemove tmp].
Proof.
  intros tmp root1 Hreg Hplain Hresp R. subst R.
  destruct (capture_error command self w msg Hreg Hplain Hresp)
    as (root4 & Hpl & Hex & ->).
  unfold result, object, world. cbn [fst snd fs gdb].
  repeat split; try done. by apply events_since_app.
Qed.


(** ** The target query *)

Lemma lookup_head {A} (x : A) t : (x :: t) !! 0 = Some x.
Proof. reflexivity. Qed.

Lemma py_split_app_head sep a : ∀ b,
  contains_char sep a = false →
  py_split sep (a +:+ b) =
  match py_split sep b with
  | h :: t => (a +:+ h) :: t
  | [] => [a]
  end.
Proof.
  induction a as [| c a IH]; intros b H.
  - rewrite append_nil. pose proof (py_split_nonempty sep b).
    by destruct (py_split sep b).
  - cbn [contains_char] in H. apply orb_false_elim in H as [Hc Ha].
    rewrite append_cons. cbn [py_split].
    rewrite Ascii.eqb_sym, Hc, (IH b Ha).
    by destruct (py_split sep b).
Qed.

Lemma py_split_at_sep sep a b :
  contains_char sep a = false →
  py_split sep (a +:+ String sep b) = a :: py_split sep b.
Proof.
  intros H. rewrite (py_split_app_head sep a _ H). cbn [py_split].
  by rewrite Ascii.eqb_refl, append_empty_r.
Qed.

Lemma getTarget_text self w text :
  result (executeCapture "info target" self w) = inr (Some text) →
  text ≠ "" →
  _getTarget self w =
  (match py_split chr_nl text !! 0 with
   | Some line =>
       match py_split chr_quote line !! 1 with
       | Some path => inr (Some path)
       | None => inl IndexError
       end
   | None => inl IndexError
   end, self, world (executeCapture "info target" self w)).
Proof.
  intros H Hne. unfold _getTarget. unfold mbind at 1, M_bind at 1.
  rewrite executeCapture_run, H. cbv beta iota.
  destruct text as [| c t]; [done |].
  unfold list_get, mbind, M_bind, mret, M_ret, raise.
  destruct (py_split chr_nl (String c t) !! 0) as [line |]; [| done].
  by destruct (py_split chr_quote line !! 1).
Qed.

(** X5. The target is the text between the first two double quotes of the
    first line of the answer to [info target]. *)
Theorem getTarget_quoted_path self w pre path rest :
  result (executeCapture "info target" self w) =
    inr (Some (pre +:+ String chr_quote path +:+ String chr_quote rest)) →
  contains_char chr_nl pre = false →
  contains_char chr_quote pre = false →
  contains_char chr_nl path = false →
  contains_char chr_quote path = false →
  _getTarget self w =
  (inr (Some path), self, world (executeCapture "info target" self w)).
Proof.
  intros H Hpn Hpq Hn Hq.
  rewrite (getTarget_text self w _ H).
  2: { destruct pre; [by rewrite append_nil |]. by rewrite append_cons. }
  assert (Hsplit : pre +:+ String chr_quote path +:+ String chr_quote rest =
                   (pre +:+ String chr_quote path +:+ String chr_quote "")
                   +:+ rest).
  { by rewrite (append_assoc pre), (append_assoc (String chr_quote path)). }
  rewrite Hsplit, py_split_app_head.
  2: { rewrite contains_char_app, Hpn. cbn [contains_char orb].
       rewrite append_cons. cbn [contains_char].
       rewrite contains_char_app, Hn. by cbn. }
  pose proof (py_split_nonempty chr_nl rest) as Hr.
  destruct (py_split chr_nl rest) as [| h t]; [done |].
  rewrite lookup_head. cbv beta iota.
  rewrite (append_assoc pre), (append_assoc (String chr_quote path)).
  rewrite (append_cons chr_quote path), (py_split_at_sep _ _ _ Hpq).
  rewrite (append_cons chr_quote ""), (py_split_at_sep _ _ _ Hq).
  reflexivity.
Qed.

(** X6. A first line without a double quote makes the target query raise
    [IndexError]: the second field of the split does not exist. *)
Theorem getTarget_unquoted_line self w line tail :
  result (executeCapture "info target" self w) = inr (Some (line +:+ tail)) →
  line +:+ tail ≠ "" →
  contains_char chr_nl line = false →
  contains_char chr_quote line = false →
  tail = "" ∨ startswith (String chr_nl "") tail = true →
  _getTarget self w =
  (inl IndexError, self, world (executeCapture "info target" self w)).
Proof.
  intros H Hne Hn Hq Ht.
  rewrite (getTarget_text self w _ H Hne), (py_split_app_head _ _ _ Hn).
  assert (∃ t, py_split chr_nl tail = "" :: t) as [t ->].
  { destruct Ht as [-> | Ht]; [by exists [] |].
    destruct tail as [| c tail]; [done |]. cbn [startswith] in Ht.
    apply andb_prop in Ht as [Hc _]. apply Ascii.eqb_eq in Hc as <-.
    exists (py_split chr_nl tail). cbn [py_split]. by rewrite Ascii.eqb_refl. }
  rewrite lookup_head. cbv beta iota. rewrite append_empty_r.
  pose proof (py_split_app_head chr_quote line "" Hq) as Hs.
  rewrite append_empty_r in Hs. rewrite Hs. reflexivity.
Qed.

(** X7. When the debugger rejects [info target], decompile prints the
    debugger's message and then raises [AttributeError]: the capture
    returned [None], which has no [split]. *)
Theorem decompile_query_rejected function self w msg :
  let tmp := strip (popen_read "mktemp" (fs w)).1 in
  let root1 := (popen_read "mktemp" (fs w)).2 in
  regular_file root1 (cwd w) tmp = true →
  respond (gdb w) "info target" = inl msg →
  let R := decompile function self w in
  result R = inl AttributeError ∧
  object R = self ∧
  events_since w (world R) =
    capture_setup tmp ++
    [EvGdbExecute "info target"; EvGdbExecute "set logging enabled off";
     shown ("ERROR: " +:+ msg); EvRemove tmp].
Proof.
  intros tmp root1 Hreg Hresp R. subst R.
  destruct (capture_error "info target" self w msg Hreg eq_refl Hresp)
    as (root4 & _ & _ & Hc).
  assert (HT : _getTarget self w =
               (inl AttributeError, self, world (executeCapture "info target" self w))).
  { unfold _getTarget. unfold mbind at 1, M_bind at 1.
    rewrite executeCapture_run. by rewrite Hc. }
  assert (HD : decompile function self w =
               (inl AttributeError, self, world (executeCapture "info target" self w))).
  { rewrite decompile_eq. unfold mbind at 1, M_bind at 1. by rewrite HT. }
  rewrite HD, Hc. unfold result, object, world. cbn [fst snd].
  repeat split. by apply events_since_app.
Qed.

(** ** The constructor *)

Lemma rstrip_char_end c s : endswith_char c (rstrip_char c s) = false.
Proof.
  induction s as [| d s IH]; [done |]. cbn [rstrip_char].
  destruct (rstrip_char c s) as [| x r] eqn:Hr.
  - destruct (Ascii.eqb c d) eqn:Hc; [done |]. cbn. exact Hc.
  - exact IH.
Qed.

Lemma config_path_home h name :
  environ !! "HOME" = Some h →
  contains_char chr_slash name = false →
  path_join (expanduser "~") ["GDBDecompile"; name] =
  rstrip_char chr_slash h +:+ "/GDBDecompile/" +:+ name.
Proof.
  intros Hh Hn.
  assert (He : expanduser "~" =
               match rstrip_char chr_slash h with
               | EmptyString => "/"
               | r => r
               end).
  { unfold expanduser. cbn [cut_at_slash]. rewrite Hh.
    by rewrite append_empty_r. }
  rewrite He. clear He.
  pose proof (rstrip_char_end chr_slash h) as He.
  pose proof (startswith_slash_no _ Hn) as Hs.
  unfold path_join. cbn [foldl].
  destruct (rstrip_char chr_slash h) as [| c r] eqn:Hr.
  - unfold path_join2. rewrite Hs. reflexivity.
  - rewrite (path_join2_dir (String c r) "GDBDecompile"); [| done | done | done].
    destruct (cache_dir_shape (String c r) "GDBDecompile") as [Hne Hend];
      [done | done |].
    rewrite (path_join2_dir (String c r) "GDBDecompile") in Hne, Hend;
      [| done | done | done | done | done | done].
    rewrite (path_join2_dir _ name Hne Hend Hn).
    by rewrite !append_assoc.
Qed.

(** X8. Whatever is wrong with the configuration file, the constructor
    returns normally with [loaded] set and [decompiled] unset and changes
    no file. The options are the decoded table when the file reads as text
    and decodes as TOML, with nothing printed; otherwise they are empty
    after exactly one message: "Cannot locate" for a missing file,
    "Cannot decode" for text that is no TOML, and "Error:" with the
    exception's text for a path through a regular file or with a NUL
    character, a directory, or bytes that do not decode. *)
Theorem constructor_outcome w :
  let cfg := path_join (expanduser "~") ["GDBDecompile"; "config.toml"] in
  let D := Decompile w in
  let said message :=
    options (object D) = ∅ ∧
    events_since w (world D) = [EvOpen cfg; shown message] in
  result D = inr () ∧
  loaded (object D) = true ∧
  decompiled (object D) = false ∧
  fs (world D) = fs w ∧
  match resolve (fs w) (cwd w) cfg with
  | inr k =>
      match walk (fs w) k with
      | Some (File bytes) =>
          match decode bytes with
          | inr text =>
              match toml_loads (universal_newlines text) with
              | Some o =>
                  options (object D) = o ∧
                  events_since w (world D) = [EvOpen cfg]
              | None => said ("ERROR: Cannot decode " +:+ cfg +:+ ". Exiting.")
              end
          | inl msg => said ("Error: " +:+ msg)
          end
      | Some (Dir _) => said ("Error: " +:+ exn_str (IsADirectoryError cfg))
      | None => said ("ERROR: Cannot locate " +:+ cfg +:+ ". Exiting.")
      end
  | inl ENOENT => said ("ERROR: Cannot locate " +:+ cfg +:+ ". Exiting.")
  | inl e => said ("Error: " +:+ exn_str (os_error e cfg))
  end.
Proof.
  intros cfg D said. subst D said.
  unfold Decompile, __init__, _loadConfig, try_except, open_read, display,
    print, set_loaded, set_options, set_decompiled, emit, get_world, raise,
    mbind, M_bind, mret, M_ret, result, object. fold cfg.
  cbv beta iota zeta. cbn [fst snd fs cwd log].
  change (fs (log w (EvOpen cfg))) with (fs w).
  change (cwd (log w (EvOpen cfg))) with (cwd w).
  unfold fs_read_text, fs_read, read_text.
  destruct (resolve (fs w) (cwd w) cfg) as [[| |] | k]; cbv beta iota.
  4: destruct (walk (fs w) k) as [[bytes | entries] |]; cbv beta iota.
  4: destruct (decode bytes) as [msg | text]; cbv beta iota.
  5: destruct (toml_loads (universal_newlines text)) as [o |].
  all: unfold world, os_error; cbn [fst snd options loaded decompiled];
    do 5 (split; [reflexivity |]);
    apply events_since_app; unfold log; cbn [trace];
    rewrite <- ?app_assoc; reflexivity.
Qed.

(** X9. With [HOME] set, the configuration is read from
    [GDBDecompile/config.toml] under that directory, trailing slashes of
    [HOME] dropped; a file there that decodes to a table gives the session
    exactly that table, and nothing is printed. *)
Theorem config_read_from_home w h text o :
  environ !! "HOME" = Some h →
  let cfg := rstrip_char chr_slash h +:+ "/GDBDecompile/config.toml" in
  fs_read_text (fs w) (cwd w) cfg = inr text →
  toml_loads text = Some o →
  Decompile w = (inr (), mkGDBDecompile true o false, log w (EvOpen cfg)).
Proof.
  intros Hh cfg Hr Ht.
  pose proof (config_path_home h "config.toml" Hh eq_refl) as Hc.
  change (rstrip_char chr_slash h +:+ "/GDBDecompile/" +:+ "config.toml")
    with cfg in Hc.
  unfold Decompile, __init__, _loadConfig. rewrite Hc.
  unfold try_except, open_read, display,
    print, set_loaded, set_options, set_decompiled, emit, get_world, raise,
    mbind, M_bind, mret, M_ret.
  cbv beta iota zeta.
  change (fs (log w (EvOpen cfg))) with (fs w).
  change (cwd (log w (EvOpen cfg))) with (cwd w).
  rewrite Hr. cbv beta iota. rewrite Ht. reflexivity.
Qed.

Lemma decompile_appends function self w r self' w' :
  decompile function self w = (r, self', w') →
  ∃ evs, trace w' = trace w ++ evs.
Proof.
  intros H. apply decompile_inv in H as (r0 & w1 & _ & (e1 & He1 & _) & H).
  assert (Hl : ∀ path target s2 w2,
             lookup path target function s2 w2 = (r, self', w') →
             (∃ e2, trace w2 = trace w ++ e2) →
             ∃ evs, trace w' = trace w ++ evs).
  { intros path target s2 w2 Hlk [e2 He2].
    apply lookup_inv in Hlk as (_ & _ & _ & _ & Hlk).
    destruct (glob_raises (cache_pattern path target function)).
    { destruct Hlk as [_ ->]. eauto. }
    destruct Hlk as (post & Ht & _).
    eexists. by rewrite Ht, He2, <- app_assoc. }
  destruct r0 as [e | [target |]].
  - destruct H as (_ & _ & ->). eauto.
  - destruct (options self !! "decomp_path") as [[path |] |].
    2, 3: destruct H as (_ & _ & ->); eauto.
    destruct (decompiled self).
    + eapply Hl; eauto.
    + destruct H as (r1 & s2 & w2 & Hf & H).
      apply first_run_inv in Hf as (_ & _ & e2 & He2 & _).
      assert (∃ e3, trace w2 = trace w ++ e3)
        by (eexists; by rewrite He2, He1, <- app_assoc).
      destruct r1; [by destruct H as (_ & _ & ->) | eapply Hl; eauto].
  - destruct H as (_ & _ & ->). eexists. unfold log. cbn [trace].
    by rewrite He1, <- app_assoc.
Qed.

(** X17. For the object the module creates, whatever the configuration
    file is like, the handler never takes the branch that reports an
    improper load: every call starts with [dont_repeat]. *)
Theorem constructed_session_accepted w arg from_tty v :
  let session := object (Decompile w) in
  ∃ evs,
    events_since v (world (invoke arg from_tty session v)) =
    EvDontRepeat :: evs.
Proof.
  intros session. destruct (init_loaded w) as (_ & Hl & _).
  fold session in Hl. rewrite invoke_run, Hl. cbn [negb]. cbv zeta.
  destruct (contains_char chr_space arg || String.eqb arg "").
  { eexists. apply events_since_app. unfold world, log. cbn [snd trace].
    by rewrite <- !app_assoc. }
  destruct (decompile arg session (log v EvDontRepeat)) as [[r s'] w'] eqn:H.
  apply decompile_appends in H as [evs He].
  unfold log in He. cbn [trace] in He. rewrite <- app_assoc in He.
  destruct r as [e | [code |]]; unfold world; cbn [snd].
  - eexists. apply events_since_app. exact He.
  - eexists. apply events_since_app. unfold log. cbn [trace].
    rewrite He, <- app_assoc. reflexivity.
  - eexists. apply events_since_app. exact He.
Qed.

(** ** A cache path that cannot be set up *)

Lemma fs_mkdir_orphan root cwd p :
  fs_stat root cwd p = None →
  parent_is_dir root cwd p = false →
  fs_mkdir root cwd p = inl (FileNotFoundError p) ∨
  fs_mkdir root cwd p = inl (NotADirectoryError p).
Proof.
  unfold fs_mkdir, parent_is_dir, place_at. intros _ H.
  destruct (resolve_create root cwd p) as [[| |] | k];
    [by left | by right | done |].
  destruct (walk root k) as [n |] eqn:Hw.
  - exfalso. destruct k as [| name parent _] using rev_ind; [done |].
    rewrite split_last_snoc in H.
    apply walk_snoc in Hw as (m & Hp & _). by rewrite Hp in H.
  - destruct (split_last k) as [[parent name] |]; [| by left].
    destruct (walk root parent) as [[| m] |]; [by left | done | by left].
Qed.

Lemma fs_exists_file root cwd p content :
  fs_stat root cwd p = Some (File content) → fs_exists root cwd p = true.
Proof. unfold fs_exists. by intros ->. Qed.

Lemma fs_rmtree_file root cwd p content :
  fs_stat root cwd p = Some (File content) →
  fs_rmtree root cwd p = inl (NotADirectoryError p, root).
Proof.
  unfold fs_stat, fs_rmtree. destruct (resolve root cwd p); [done |].
  by intros ->.
Qed.

(** X18. When the configured cache path names a regular file, the first
    run stops at [rmtree] with [NotADirectoryError]: the file is kept,
    nothing is created or launched, and the flag stays unset. *)
Theorem decompile_cache_path_is_file function self w target path content :
  result (_getTarget self w) = inr (Some target) →
  options self !! "decomp_path" = Some (TStr path) →
  decompiled self = false →
  let w1 := world (_getTarget self w) in
  fs_stat (fs w1) (cwd w1) path = Some (File content) →
  let R := decompile function self w in
  result R = inl (NotADirectoryError path) ∧
  object R = self ∧
  fs (world R) = fs w1 ∧
  events_since w1 (world R) = [EvRmtree path].
Proof.
  intros HT Hp Hd w1 Hs R.
  destruct (decompile function self w) as [[r s'] w'] eqn:H. subst R.
  apply decompile_inv in H as (r0 & w1' & HT' & _ & H).
  subst w1. rewrite HT' in HT, Hs |- *. unfold result, object, world in *.
  simpl in *. subst r0. rewrite Hp, Hd in H.
  destruct H as (r1 & s2 & w2 & Hf & H).
  revert Hf.
  unfold first_run, os_path_exists, shutil_rmtree, fs_update, emit,
    get_world, put_fs, raise, mbind, M_bind, mret, M_ret. simpl.
  rewrite (fs_exists_file _ _ _ _ Hs). simpl.
  rewrite (fs_rmtree_file _ _ _ _ Hs). simpl.
  intros Hf. injection Hf as <- <- <-.
  destruct H as (-> & -> & ->). simpl.
  repeat split. by apply events_since_app.
Qed.

(** X19. When the configured cache path does not exist and its parent is
    not a directory, the first run stops at [mkdir] with
    [FileNotFoundError] or [NotADirectoryError]: the file system is
    unchanged, nothing is launched, and the flag stays unset. *)
Theorem decompile_cache_parent_missing function self w target path :
  result (_getTarget self w) = inr (Some target) →
  options self !! "decomp_path" = Some (TStr path) →
  decompiled self = false →
  let w1 := world (_getTarget self w) in
  fs_stat (fs w1) (cwd w1) path = None →
  parent_is_dir (fs w1) (cwd w1) path = false →
  let R := decompile function self w in
  (result R = inl (FileNotFoundError path) ∨
   result R = inl (NotADirectoryError path)) ∧
  object R = self ∧
  fs (world R) = fs w1 ∧
  events_since w1 (world R) = [EvMkdir path].
Proof.
  intros HT Hp Hd w1 Hs Hpar R.
  destruct (decompile function self w) as [[r s'] w'] eqn:H. subst R.
  apply decompile_inv in H as (r0 & w1' & HT' & _ & H).
  subst w1. rewrite HT' in HT, Hs, Hpar |- *.
  unfold result, object, world in *.
  simpl in *. subst r0. rewrite Hp, Hd in H.
  destruct H as (r1 & s2 & w2 & Hf & H).
  pose proof (fs_mkdir_orphan _ _ _ Hs Hpar) as Hmk.
  revert Hf.
  unfold first_run, os_path_exists, os_mkdir, fs_update, emit,
    get_world, put_fs, raise, mbind, M_bind, mret, M_ret. simpl.
  unfold fs_exists. rewrite Hs. simpl.
  destruct Hmk as [-> | ->]; simpl; intros Hf; injection Hf as <- <- <-;
    destruct H as (-> & -> & ->); simpl;
    (split; [auto |]); repeat split; by apply events_since_app.
Qed.

End Program.

(** * The theorems on concrete machines *)

Abbreviation Decompile0 := (Decompile env0 None pw0 toml0 decode_ascii).
Abbreviation decompile0 := (decompile env0 None pw0 popen0 run0 decode_ascii).
Abbreviation invoke0 := (invoke env0 None pw0 popen0 run0 hl0 decode_ascii).
Abbreviation getTarget0 := (_getTarget popen0 decode_ascii).
(** The session the constructor leaves on the configured machine. *)
Abbreviation session0 := (object (Decompile0 w0)).
Abbreviation world0 := (world (Decompile0 w0)).

Ltac run_eq := vm_compute; reflexivity.
Ltac in_list := vm_compute; repeat constructor.

(** C1 on the configured machine: the only match of [foo] is [foo.c]. *)
Lemma decompile_single_match_witness :
  result (decompile0 "foo" session0 world0) = inr (Some "int foo;").
Proof.
  pose (R := decompile0 "foo" session0 world0).
  destruct (decompile_single_match env0 None pw0 popen0 run0 decode_ascii "foo"
              session0 world0 (result R) (object R) (world R)
              "/tmp/out/ls/foo*" "/tmp/out/ls/foo.c" "int foo;")
    as [Hr _]; [run_eq | in_list | run_eq | exact Hr].
Defined.

(** C5 on the configured machine: nothing starts with [bar]. *)
Lemma decompile_no_match_witness :
  result (decompile0 "bar" session0 world0) = inr None.
Proof.
  pose (R := decompile0 "bar" session0 world0).
  destruct (decompile_no_match env0 None pw0 popen0 run0 decode_ascii "bar"
              session0 world0 (result R) (object R) (world R)
              "/tmp/out/ls/bar*")
    as [Hr _]; [run_eq | in_list | exact Hr].
Defined.

(** C6 on the configured machine: [main] matches two files. *)
Lemma decompile_ambiguous_witness :
  result (decompile0 "main" session0 world0) = inr None ∧
  shown "Specify with `decompile {main_helper, main}`"
  ∈ events_since world0 (world (decompile0 "main" session0 world0)).
Proof.
  pose (R := decompile0 "main" session0 world0).
  destruct (decompile_ambiguous env0 None pw0 popen0 run0 decode_ascii "main"
              session0 world0 (result R) (object R) (world R)
              "/tmp/out/ls/main*"
              ["/tmp/out/ls/main_helper.c"; "/tmp/out/ls/main.c"])
    as [Hr _]; [run_eq | in_list | simpl; lia |].
  split; [exact Hr | in_list].
Defined.

(** C3 on a machine whose debugger has nothing loaded. *)
Lemma decompile_no_target_witness :
  result (decompile0 "main" (object (Decompile0 w_idle))
            (world (Decompile0 w_idle))) = inr None ∧
  shown "ERROR: No target is loaded"
  ∈ trace (world (decompile0 "main" (object (Decompile0 w_idle))
                    (world (Decompile0 w_idle)))).
Proof.
  destruct (decompile_no_target env0 None pw0 popen0 run0 decode_ascii "main"
              (object (Decompile0 w_idle)) (world (Decompile0 w_idle)))
    as [Hr _]; [run_eq |].
  rewrite Hr. split; [reflexivity | in_list].
Defined.

(** C4 on the configured machine: two tokens. *)
Lemma invoke_usage_error_witness :
  invoke0 "main foo" true session0 world0 =
  (inr (), session0,
   log (log (log world0 EvDontRepeat) (shown "ERROR: Invalid command"))
     (shown "Usage: `decompile <function name>`")).
Proof.
  apply (invoke_usage_error env0 None pw0 popen0 run0 hl0 decode_ascii "main foo" true
           session0 world0); [run_eq | right; run_eq].
Defined.

(** C2 on the configured machine: the first run of the session. *)
Lemma decompile_once_witness :
  decompiled (object (decompile0 "foo" session0 world0)) = true ∧
  List.filter is_cache_event
    (events_since world0 (world (decompile0 "foo" session0 world0))) =
  [EvMkdir "/tmp/out";
   EvRun ["ghidrecomp"; "-o"; "/tmp/out"; "/bin/ls"]
     (<["GHIDRA_INSTALL_DIR" := "/home/u/ghidra"]> env0);
   EvExited 0].
Proof.
  pose (R := decompile0 "foo" session0 world0).
  destruct (decompile_once env0 None pw0 popen0 run0 decode_ascii "foo"
              session0 world0 (Some "int foo;") (object R) (world R) "/bin/ls")
    as [[Hflag _] _]; [run_eq | run_eq | run_eq |].
  split; [exact Hflag | run_eq].
Defined.

Abbreviation decompile_failing := (decompile env0 None pw0 popen0 run_failing decode_ascii).
Abbreviation decompile_missing := (decompile env0 None pw0 popen0 run_missing decode_ascii).
Abbreviation invoke_missing := (invoke env0 None pw0 popen0 run_missing hl0 decode_ascii).

(** C10 on the configured machine with a decompiler that exits with status
    1: the flag is set all the same. *)
Lemma exit_status_ignored_witness :
  EvExited 1 ∈ events_since world0 (world (decompile_failing "foo" session0 world0)) ∧
  decompiled (object (decompile_failing "foo" session0 world0)) = true.
Proof.
  pose (R := decompile_failing "foo" session0 world0).
  assert (Hin : EvExited 1 ∈ events_since world0 (world R)) by in_list.
  destruct (exit_status_ignored env0 None pw0 popen0 run_failing decode_ascii "foo"
              session0 world0 (result R) (object R) (world R))
    as [Hexit _]; [run_eq |].
  split; [exact Hin | exact (Hexit 1%Z Hin)].
Defined.

(** C8 on the configured machine. *)
Lemma invoke_returns_witness :
  result (invoke0 "foo" true session0 world0) = inr ().
Proof.
  apply (invoke_returns env0 None pw0 popen0 run0 hl0 decode_ascii "foo" true
           session0 world0 (Some "/bin/ls")); [run_eq |].
  intros target Ht. injection Ht as <-.
  exists "/tmp/out". split; [run_eq |]. split; [| split; run_eq].
  intros _. exists "~/ghidra". split; [run_eq |]. split; [run_eq |].
  intros root'. unfold run0.
  destruct (fs_place root' _ _ _); eauto.
Defined.

Ltac neq_str := vm_compute; intros Heq; discriminate Heq.

(** C9 on the configured machine: the candidates for [main]. *)
Lemma candidates_by_prefix_witness :
  ["/tmp/out/ls/main_helper.c"; "/tmp/out/ls/main.c"] =
  List.map (path_join2 (path_join "/tmp/out" [basename "/bin/ls"]))
    (List.filter (startswith "main")
       (listdir (fs (world (decompile0 "main" session0 world0)))
          (cwd (world (decompile0 "main" session0 world0)))
          (path_join "/tmp/out" [basename "/bin/ls"]))).
Proof.
  pose (R := decompile0 "main" session0 world0).
  assert (H1 : decompile0 "main" session0 world0 = (result R, object R, world R))
    by run_eq.
  assert (H2 : EvGlob "/tmp/out/ls/main*"
                 ["/tmp/out/ls/main_helper.c"; "/tmp/out/ls/main.c"]
               ∈ events_since world0 (world R)) by in_list.
  assert (H3 : result (getTarget0 session0 world0) = inr (Some "/bin/ls"))
    by run_eq.
  assert (H4 : options session0 !! "decomp_path" = Some (TStr "/tmp/out"))
    by run_eq.
  assert (H5 : "main" ≠ "") by neq_str.
  assert (H6 : has_magic "main" = false) by run_eq.
  assert (H7 : contains_char chr_slash "main" = false) by run_eq.
  assert (H8 : basename "/bin/ls" ≠ "") by neq_str.
  assert (H9 : has_magic (path_join "/tmp/out" [basename "/bin/ls"]) = false)
    by run_eq.
  exact (candidates_by_prefix env0 None pw0 popen0 run0 decode_ascii "main"
           session0 world0 (result R) (object R) (world R)
           "/tmp/out/ls/main*"
           ["/tmp/out/ls/main_helper.c"; "/tmp/out/ls/main.c"]
           "/bin/ls" "/tmp/out" H1 H2 H3 H4 H5 H6 H7 H8 H9).
Defined.

(** * Where the specification fails *)

Ltac not_in_list :=
  rewrite list_elem_of_In; vm_compute; intuition discriminate.

(** C1 fails for a file with Windows line endings: what is returned is not
    what the file holds. *)
Lemma decompile_single_match_counterexample :
  let R := decompile env0 None pw0 popen0 run_crlf decode_ascii "foo"
             session0 world0 in
  EvGlob "/tmp/out/ls/foo*" ["/tmp/out/ls/foo.c"]
  ∈ events_since world0 (world R) ∧
  fs_stat (fs (world R)) (cwd (world R)) "/tmp/out/ls/foo.c" =
    Some (File ("int foo;" +:+ String chr_cr (String chr_nl ""))) ∧
  result R = inr (Some ("int foo;" +:+ String chr_nl "")) ∧
  "int foo;" +:+ String chr_nl "" ≠
  "int foo;" +:+ String chr_cr (String chr_nl "").
Proof. split; [in_list |]. split; [run_eq |]. split; [run_eq | neq_str]. Qed.

(** C2 fails where the cache path lies under a missing directory: the first
    run that finds a target creates no cache directory and launches
    nothing, and leaves the flag unset. *)
Lemma decompile_once_counterexample :
  let s := object (Decompile0 w_far) in
  let w := world (Decompile0 w_far) in
  let R := decompile0 "main" s w in
  decompiled s = false ∧
  result (getTarget0 s w) = inr (Some "/bin/ls") ∧
  result R = inl (FileNotFoundError "/srv/cache/out") ∧
  List.filter is_cache_event (events_since w (world R)) =
    [EvMkdir "/srv/cache/out"] ∧
  fs_exists (fs (world R)) [] "/srv/cache/out" = false ∧
  decompiled (object R) = false.
Proof. repeat split; run_eq. Qed.

(** C10 fails where the decompiler cannot be launched: the first run that
    finds a target leaves the flag unset, and the next run launches again. *)
Lemma exit_status_ignored_counterexample :
  let R1 := decompile_missing "main" session0 world0 in
  let R2 := decompile_missing "main" (object R1) (world R1) in
  result (getTarget0 session0 world0) = inr (Some "/bin/ls") ∧
  result R1 = inl (FileNotFoundError "ghidrecomp") ∧
  decompiled (object R1) = false ∧
  length (List.filter is_run (events_since world0 (world R1))) = 1 ∧
  length (List.filter is_run (events_since (world R1) (world R2))) = 1.
Proof. repeat split; run_eq. Qed.

(** C8 fails where the decompiler cannot be launched: the exception of the
    launch leaves the handler. *)
Lemma invoke_returns_counterexample :
  result (invoke_missing "main" true session0 world0)
  = inl (FileNotFoundError "ghidrecomp").
Proof. run_eq. Qed.

(** C9 fails for a name with a wildcard: for [*] the candidates include
    [foo.c], whose name does not start with [*]. *)
Lemma candidates_by_prefix_counterexample :
  let R := decompile0 "*" session0 world0 in
  EvGlob "/tmp/out/ls/**"
    ["/tmp/out/ls/main_helper.c"; "/tmp/out/ls/main.c"; "/tmp/out/ls/foo.c"]
  ∈ events_since world0 (world R) ∧
  startswith "*" (basename "/tmp/out/ls/foo.c") = false.
Proof. split; [in_list | run_eq]. Qed.

(** C7: without a configuration file the constructor reports the failure
    and sets [loaded] all the same; the handler then prints no load error
    and calls decompile, which fails on the missing option. *)
Theorem missing_config_not_reported :
  let s := object (Decompile0 w_bare) in
  let w := world (Decompile0 w_bare) in
  let R := invoke0 "main" true s w in
  trace w = [EvOpen "/home/u/GDBDecompile/config.toml";
             shown "ERROR: Cannot locate /home/u/GDBDecompile/config.toml. Exiting."] ∧
  loaded s = true ∧
  options s = ∅ ∧
  result R = inl (KeyError "decomp_path") ∧
  shown "ERROR: Extension improperly loaded. Exiting." ∉ trace (world R).
Proof. repeat split; try run_eq. not_in_list. Qed.

(** * Further properties on concrete machines *)

Abbreviation capture0 := (executeCapture popen0 decode_ascii).
(** The session after it has decompiled once. *)
Abbreviation session1 := (object (decompile0 "foo" session0 world0)).
Abbreviation world1 := (world (decompile0 "foo" session0 world0)).
(** The sessions made without a configuration file, and with a
    configuration that gives the cache path only. *)
Abbreviation session_bare := (object (Decompile0 w_bare)).
Abbreviation session_half := (object (Decompile env0 None pw0 toml_half decode_ascii w0)).

(** X2 on the configured machine: the answer to [info target]. *)
Lemma executeCapture_returns_output_witness :
  result (capture0 "info target" session0 world0) = inr (Some info_target_ls) ∧
  fs_exists (fs (world (capture0 "info target" session0 world0))) []
    "/tmp/tmp.X" = false.
Proof.
  destruct (executeCapture_returns_output popen0 decode_ascii "info target" session0 world0
              info_target_ls)
    as (_ & _ & Hex & _ & H); [run_eq | run_eq | run_eq |].
  destruct H as [Hr _]. split; [exact Hr | exact Hex].
Defined.

(** X3 on the configured machine: a command the debugger does not know. *)
Lemma executeCapture_command_error_witness :
  result (capture0 "frame" session0 world0) = inr None ∧
  fs_exists (fs (world (capture0 "frame" session0 world0))) []
    "/tmp/tmp.X" = false.
Proof.
  destruct (executeCapture_command_error popen0 decode_ascii "frame" session0 world0
              "Undefined command")
    as (Hr & _ & _ & Hex & _); [run_eq | run_eq | run_eq |].
  split; [exact Hr | exact Hex].
Defined.


(** X5 on the configured machine: the target is [/bin/ls]. *)
Lemma getTarget_quoted_path_witness :
  getTarget0 session0 world0 =
  (inr (Some "/bin/ls"), session0,
   world (capture0 "info target" session0 world0)).
Proof.
  apply (getTarget_quoted_path popen0 decode_ascii session0 world0 "Symbols from "
           "/bin/ls" ("." +:+ String chr_nl "Local exec file:"));
    run_eq.
Defined.

(** X6 with a debugger that names no file. *)
Lemma getTarget_unquoted_line_witness :
  getTarget0 session0 w_unquoted =
  (inl IndexError, session0,
   world (capture0 "info target" session0 w_unquoted)).
Proof.
  apply (getTarget_unquoted_line popen0 decode_ascii session0 w_unquoted
           "No file is loaded." (String chr_nl ""));
    [run_eq | neq_str | run_eq | run_eq | right; run_eq].
Defined.

(** X7 with a debugger that rejects every command. *)
Lemma decompile_query_rejected_witness :
  result (decompile0 "main" session0 w_refusing) = inl AttributeError.
Proof.
  destruct (decompile_query_rejected env0 None pw0 popen0 run0 decode_ascii "main"
              session0 w_refusing "Remote connection closed")
    as (Hr & _); [run_eq | run_eq | exact Hr].
Defined.

(** X9 on the configured machine. *)
Lemma config_read_from_home_witness :
  Decompile0 w0 =
  (inr (),
   mkGDBDecompile true
     {[ "decomp_path" := TStr "/tmp/out"; "ghidra_path" := TStr "~/ghidra" ]}
     false,
   log w0 (EvOpen (rstrip_char chr_slash "/home/u"
                   +:+ "/GDBDecompile/config.toml"))).
Proof.
  apply (config_read_from_home env0 None pw0 toml0 decode_ascii w0 "/home/u" "cfg"
           {[ "decomp_path" := TStr "/tmp/out";
              "ghidra_path" := TStr "~/ghidra" ]});
    run_eq.
Defined.

(** X10 on the configured machine. *)
Lemma invoke_valid_argument_witness :
  result (invoke0 "foo" true session0 world0) =
  match result (decompile0 "foo" session0 (log world0 EvDontRepeat)) with
  | inl e => inl e
  | inr _ => inr ()
  end.
Proof.
  destruct (invoke_valid_argument env0 None pw0 popen0 run0 hl0 decode_ascii "foo" true
              session0 world0)
    as (_ & Hr & _); [run_eq | neq_str | run_eq | exact Hr].
Defined.

(** X11 on the session that has decompiled: the flag stays set. *)
Lemma invoke_session_invariant_witness :
  decompiled (object (invoke0 "main" true session1 world1)) = true.
Proof.
  destruct (invoke_session_invariant env0 None pw0 popen0 run0 hl0 decode_ascii "main" true
              session1 world1)
    as (_ & _ & Hd).
  apply Hd. run_eq.
Defined.

(** X12 on the session that has decompiled. *)
Lemma decompile_cached_readonly_witness :
  object (decompile0 "main" session1 world1) = session1 ∧
  fs (world (decompile0 "main" session1 world1)) =
  fs (world (getTarget0 session1 world1)).
Proof.
  pose (R := decompile0 "main" session1 world1).
  destruct (decompile_cached_readonly env0 None pw0 popen0 run0 decode_ascii "main"
              session1 world1 (result R) (object R) (world R))
    as (Hs & Hf & _); [run_eq | run_eq |].
  split; [exact Hs | exact Hf].
Defined.

(** X13 on the machine without a configuration file. *)
Lemma decompile_missing_decomp_path_witness :
  decompile0 "main" session_bare w_bare =
  (inl (KeyError "decomp_path"), session_bare,
   world (getTarget0 session_bare w_bare)).
Proof.
  apply (decompile_missing_decomp_path env0 None pw0 popen0 run0 decode_ascii "main"
           session_bare w_bare "/bin/ls"); run_eq.
Defined.

(** X14 with a configuration that gives the cache path only. *)
Lemma decompile_missing_ghidra_path_witness :
  result (decompile0 "main" session_half w0) = inl (KeyError "ghidra_path") ∧
  fs_scandir (fs (world (decompile0 "main" session_half w0)))
    (cwd (world (decompile0 "main" session_half w0))) "/tmp/out" = Some [].
Proof.
  destruct (decompile_missing_ghidra_path env0 None pw0 popen0 run0 decode_ascii "main"
              session_half w0 "/bin/ls" "/tmp/out")
    as (Hr & _ & Hs & _); [run_eq | run_eq | run_eq | run_eq | run_eq |].
  split; [exact Hr | exact Hs].
Defined.

(** X15 on the configured machine: the name [/bin/l] finds the target
    itself. *)
Lemma absolute_name_leaves_cache_witness :
  ["/bin/ls"] =
  glob (fs (world (decompile0 "/bin/l" session0 world0)))
    (cwd (world (decompile0 "/bin/l" session0 world0))) ("/bin/l" +:+ "*").
Proof.
  pose (R := decompile0 "/bin/l" session0 world0).
  destruct (absolute_name_leaves_cache env0 None pw0 popen0 run0 decode_ascii "/bin/l"
              session0 world0 (result R) (object R) (world R)
              "/bin/l*" ["/bin/ls"])
    as (_ & Hm); [run_eq | in_list | run_eq | exact Hm].
Defined.

(** X16 on a file of the cache. *)
Lemma candidate_name_stem_witness :
  candidate_name ("/tmp/out/ls" +:+ "/" +:+ "main_helper" +:+ "." +:+ "c") =
  "main_helper".
Proof.
  apply (candidate_name_stem "/tmp/out/ls" "main_helper" "c"); run_eq.
Defined.

(** X18 with the binary itself as cache path: it is kept. *)
Lemma decompile_cache_path_is_file_witness :
  result (decompile0 "main" (object (Decompile env0 None pw0 toml_file decode_ascii w0)) w0)
  = inl (NotADirectoryError "/bin/ls").
Proof.
  destruct (decompile_cache_path_is_file env0 None pw0 popen0 run0 decode_ascii "main"
              (object (Decompile env0 None pw0 toml_file decode_ascii w0)) w0
              "/bin/ls" "/bin/ls" "ELF")
    as (Hr & _); [run_eq | run_eq | run_eq | run_eq | exact Hr].
Defined.

(** X19 on the machine whose cache path lies under a missing directory. *)
Lemma decompile_cache_parent_missing_witness :
  decompiled (object (decompile0 "main" (object (Decompile0 w_far))
                        (world (Decompile0 w_far)))) = false.
Proof.
  destruct (decompile_cache_parent_missing env0 None pw0 popen0 run0 decode_ascii "main"
              (object (Decompile0 w_far)) (world (Decompile0 w_far))
              "/bin/ls" "/srv/cache/out")
    as (_ & Ho & _); [run_eq | run_eq | run_eq | run_eq | run_eq |].
  rewrite Ho. run_eq.
Defined.
